(** * policy-pulse: the HTTP client, the analysis hooks and the onboarding wizard

    A shallow embedding of the TypeScript sources

    - [lib/api] (the HTTP client wrapper and [analysisApi]),
    - [hooks/use-analysis.ts] (mutation and polling hooks),
    - [hooks/use-onboarding.ts] and [app/onboarding/page.tsx] (the wizard),

    followed by the properties the specification states about them.

    Conventions.  An [async] function is a computation in the monad [M]:
    it threads the list of HTTP requests issued so far and either returns
    a value or throws.  The network is an oracle of the environment
    ([Env]); the oracle is asked with the number of requests issued before
    and the request itself.  React state is a record, an event handler is
    a function on it, and the part of a handler after an [await] is a
    function of its own, so that other events may come in between. *)

From Stdlib Require Import ZArith List Bool Lia.
From stdpp Require Import base option list gmap strings pretty.

Set Warnings "-register-all".
Open Scope Z_scope.

(* ===================================================================== *)
(** ** JavaScript values *)
(* ===================================================================== *)

Module JS.

(** A JSON-like run-time value.  Numbers are integers (no claim reads a
    fractional number); an object is a finite map of its own properties. *)
Inductive JsVal :=
| JUndefined
| JNull
| JBool (b : bool)
| JNum (z : Z)
| JStr (s : string)
| JArr (l : list JsVal)
| JObj (m : gmap string JsVal).

(** [!!v] *)
Definition truthy (v : JsVal) : bool :=
  match v with
  | JUndefined | JNull => false
  | JBool b => b
  | JNum z => negb (z =? 0)
  | JStr s => match s with EmptyString => false | String _ _ => true end
  | JArr _ | JObj _ => true
  end.

(** [!!s] for a value of type [string | null | undefined]. *)
Definition truthy_str (s : option string) : bool :=
  match s with
  | Some (String _ _) => true
  | _ => false
  end.

(** [String(v)], as the [Error] constructor applies it to its message. *)
Fixpoint to_string (v : JsVal) : string :=
  match v with
  | JUndefined => "undefined"
  | JNull => "null"
  | JBool true => "true"
  | JBool false => "false"
  | JNum z => pretty z
  | JStr s => s
  | JArr l =>
      (fix join (l : list JsVal) : string :=
         match l with
         | [] => ""
         | [x] => match x with JNull | JUndefined => "" | _ => to_string x end
         | x :: xs =>
             (match x with JNull | JUndefined => "" | _ => to_string x end)
               +:+ "," +:+ join xs
         end) l
  | JObj _ => "[object Object]"
  end.

(** [v.k] for a key [k] that is not a built-in property of strings or
    arrays (the program reads [message] and [code] only).  [None] stands
    for the [TypeError] of a property read on [null] or [undefined]. *)
Definition get (v : JsVal) (k : string) : option JsVal :=
  match v with
  | JUndefined | JNull => None
  | JObj m => Some (default JUndefined (m !! k))
  | _ => Some JUndefined
  end.

(** An optional property: [undefined] is absence. *)
Definition defined (v : JsVal) : option JsVal :=
  match v with
  | JUndefined => None
  | _ => Some v
  end.

(** White space and line terminators of [String.prototype.trim], among the
    code units below 256 that a [string] here is made of. *)
Definition is_space (c : Ascii.ascii) : bool :=
  let n := Ascii.nat_of_ascii c in
  (Nat.eqb n 9 || Nat.eqb n 10 || Nat.eqb n 11 || Nat.eqb n 12
   || Nat.eqb n 13 || Nat.eqb n 32 || Nat.eqb n 160)%bool.

Fixpoint trim_start (s : string) : string :=
  match s with
  | EmptyString => EmptyString
  | String c r => if is_space c then trim_start r else s
  end.

(** Drops the trailing white space: a character is kept when it is not a
    space or when something is kept after it. *)
Fixpoint trim_end (s : string) : string :=
  match s with
  | EmptyString => EmptyString
  | String c r =>
      match trim_end r with
      | EmptyString => if is_space c then EmptyString else String c EmptyString
      | r' => String c r'
      end
  end.

(** [s.trim()] *)
Definition trim (s : string) : string := trim_end (trim_start s).

End JS.
Import JS.

(* ===================================================================== *)
(** ** lib/api: the HTTP client wrapper and [analysisApi] *)
(* ===================================================================== *)

Module Api.

(** [class ApiError extends Error]: [name] is always ["ApiError"]. *)
Record ApiError := new_ApiError {
  message : string;
  status : option Z;
  code : option JsVal;
}.

(** What a [throw] or a rejected promise may carry. *)
Inductive Thrown :=
| ThrownApiError (e : ApiError)
| ThrownError (name msg : string)   (* another [Error]: TypeError, SyntaxError *)
| ThrownValue (v : JsVal).          (* a value that is no [Error] *)

(** What the environment (not the program) may reject a promise with. *)
Inductive Rejection :=
| RejError (name msg : string)
| RejValue (v : JsVal).

Definition thrown_of (r : Rejection) : Thrown :=
  match r with
  | RejError n m => ThrownError n m
  | RejValue v => ThrownValue v
  end.

(** The body of a response as [response.json()] finds it: not JSON (the
    promise rejects with a [SyntaxError]), or a parsed value, which the
    program reads untyped ([raw], the [errorData] of a failure) or at the
    type [T] the caller declares ([typed], the unchecked [as T]). *)
Inductive Body (T : Type) :=
| NotJson (msg : string)
| Json (raw : JsVal) (typed : T).
Arguments NotJson {T} msg.
Arguments Json {T} raw typed.

Record Response (T : Type) := {
  r_status : Z;
  r_statusText : string;
  r_body : Body T;
}.
Arguments r_status {T} _.
Arguments r_statusText {T} _.
Arguments r_body {T} _.

(** [response.ok]: the status is in the range 200-299. *)
Definition r_ok {T} (r : Response T) : bool :=
  (200 <=? r_status r) && (r_status r <=? 299).

Inductive FetchOutcome (T : Type) :=
| Rejects (e : Rejection)      (* no response received *)
| Resolves (r : Response T).
Arguments Rejects {T} e.
Arguments Resolves {T} r.

Record File := { f_name : string; f_content : string }.

Inductive FormValue :=
| FormString (s : string)
| FormFile (f : File).

Inductive ReqBody :=
| NoBody
| JsonBody (v : JsVal)                          (* [JSON.stringify(v)] *)
| FormBody (entries : list (string * FormValue)).

(** A [fetch] call: the URL and the [RequestInit] it is given. *)
Record Request := {
  q_url : string;
  q_method : option string;
  q_headers : option (gmap string string);
  q_body : ReqBody;
}.

(** [RequestInit] as the callers of [apiRequest] build it. *)
Record RequestInit := {
  o_method : option string;
  o_headers : option (gmap string string);
  o_body : option ReqBody;
}.

Definition no_options : RequestInit :=
  {| o_method := None; o_headers := None; o_body := None |}.

(** Types for the upload flow and the job, as the backend declares them. *)
Record UploadInitResponse := {
  upload_url : string;
  fields : gmap string string;
  s3_key : string;
  expires_at : string;
  max_file_size_mb : Z;
}.

(** Modelled from the spec: the declaration of [AnalysisJob] in
    [@/types/api], which is not among the sources (spec section 3: an
    opaque string identifier, an open-ended status string, optional
    metadata). *)
Record AnalysisJob := {
  job_id : string;
  job_status : string;
  job_metadata : option JsVal;
}.

(** Modelled from the spec: [AnalysisResult] of [@/types/api], keyed by
    the job identifier; its other fields are opaque here. *)
Record AnalysisResult := {
  result_job_id : string;
  result_payload : JsVal;
}.

(** The environment of the program: the build-time base URL, the token
    the identity provider hands out, and the servers.  Each oracle gets
    the number of requests issued before this one and the request. *)
Record Env := {
  NEXT_PUBLIC_API_URL : option string;
  getToken : Rejection + option string;
  net_uploads_init : nat → Request → FetchOutcome UploadInitResponse;
  net_storage : nat → Request → FetchOutcome unit;
  net_create : nat → Request → FetchOutcome AnalysisJob;
  net_status : nat → Request → FetchOutcome AnalysisJob;
  net_result : nat → Request → FetchOutcome AnalysisResult;
  net_history : nat → Request → FetchOutcome (list AnalysisJob);
}.

Definition API_BASE_URL (w : Env) : string :=
  match NEXT_PUBLIC_API_URL w with
  | Some (String c r) => String c r
  | _ => "https://prisere-backend.onrender.com/v1"
  end.

(** *** Asynchronous computations *)

(** The requests issued so far go in; a result or a thrown value and the
    requests issued by then come out. *)
Definition M (A : Type) : Type := list Request → (Thrown + A) * list Request.

#[global] Instance M_ret : MRet M := λ A a tr, (inr a, tr).
#[global] Instance M_bind : MBind M := λ A B f m tr,
  match m tr with
  | (inl e, tr') => (inl e, tr')
  | (inr a, tr') => f a tr'
  end.

Definition throw {A} (e : Thrown) : M A := λ tr, (inl e, tr).

(** [try { m } catch (error) { h error }] *)
Definition try_catch {A} (m : M A) (h : Thrown → M A) : M A := λ tr,
  match m tr with
  | (inl e, tr') => h e tr'
  | (inr a, tr') => (inr a, tr')
  end.

(** [await fetch(url, config)] against the server [net]. *)
Definition fetch {T} (net : nat → Request → FetchOutcome T) (req : Request)
  : M (Response T) := λ tr,
  match net (length tr) req with
  | Rejects e => (inl (thrown_of e), tr ++ [req])
  | Resolves r => (inr r, tr ++ [req])
  end.

(** [await response.json()], read untyped. *)
Definition json_raw {T} (r : Response T) : M JsVal :=
  match r_body r with
  | NotJson m => throw (ThrownError "SyntaxError" m)
  | Json raw _ => mret raw
  end.

(** [await response.json()], at the declared type. *)
Definition json {T} (r : Response T) : M T :=
  match r_body r with
  | NotJson m => throw (ThrownError "SyntaxError" m)
  | Json _ typed => mret typed
  end.

(** [v.k] inside a computation. *)
Definition read (v : JsVal) (k : string) : M JsVal :=
  match get v k with
  | Some x => mret x
  | None =>
      throw (ThrownError "TypeError"
               ("Cannot read properties of " +:+ to_string v
                +:+ " (reading '" +:+ k +:+ "')"))
  end.

(** The [config] object of [apiRequest]: the later spread wins, so
    [...options] replaces the merged headers when the options carry
    headers of their own. *)
Definition config_headers (options : RequestInit) (token : option string)
  : gmap string string :=
  let authorization : gmap string string :=
    if truthy_str token
    then {[ "Authorization" := "Bearer " +:+ default "" token ]}
    else ∅ in
  let merged :=
    default ∅ (o_headers options)
      ∪ authorization ∪ {[ "Content-Type" := "application/json" ]} in
  default merged (o_headers options).

Definition api_request (w : Env) (endpoint : string) (options : RequestInit)
    (token : option string) : Request :=
  {| q_url := API_BASE_URL w +:+ endpoint;
     q_method := o_method options;
     q_headers := Some (config_headers options token);
     q_body := default NoBody (o_body options) |}.

Definition apiRequest {T} (w : Env) (net : nat → Request → FetchOutcome T)
    (endpoint : string) (options : RequestInit) (token : option string) : M T :=
  try_catch
    (response ← fetch net (api_request w endpoint options token);
     if negb (r_ok response) then
       errorData ← try_catch (json_raw response) (λ _, mret (JObj ∅));
       msg ← read errorData "message";
       let text :=
         if truthy msg then to_string msg
         else "HTTP " +:+ pretty (r_status response) +:+ ": "
              +:+ r_statusText response in
       c ← read errorData "code";
       throw (ThrownApiError
                (new_ApiError text (Some (r_status response)) (defined c)))
     else json response)
    (λ error,
       match error with
       | ThrownApiError _ => throw error
       | ThrownError _ msg => throw (ThrownApiError (new_ApiError msg None None))
       | ThrownValue _ =>
           throw (ThrownApiError
                    (new_ApiError "Network error occurred" None None))
       end).

(** *** [analysisApi] *)

Definition post_json (v : JsVal) : RequestInit :=
  {| o_method := Some "POST"; o_headers := None; o_body := Some (JsonBody v) |}.

Definition init_body (f : File) : JsVal :=
  JObj {[ "file_type" := JStr "application/pdf";
          "filename" := JStr (f_name f) ]}.

(** The [FormData] of one upload: the fields of the destination, then the
    file. *)
Definition form_data (init : UploadInitResponse) (f : File)
  : list (string * FormValue) :=
  (prod_map id FormString <$> map_to_list (fields init))
    ++ [("file", FormFile f)].

Definition storage_request (init : UploadInitResponse) (f : File) : Request :=
  {| q_url := upload_url init;
     q_method := Some "POST";
     q_headers := None;
     q_body := FormBody (form_data init f) |}.

Record UploadedKeys := {
  baseline_s3_key : string;
  renewal_s3_key : string;
}.

Definition uploadFiles (w : Env) (baselineFile renewalFile : File)
    (token : option string) : M UploadedKeys :=
  baselineInit ← apiRequest w (net_uploads_init w) "/uploads/init"
                   (post_json (init_body baselineFile)) token;
  baselineS3Response ← fetch (net_storage w)
                         (storage_request baselineInit baselineFile);
  if negb (r_ok baselineS3Response) then
    throw (ThrownApiError
             (new_ApiError "Failed to upload baseline file to S3"
                (Some (r_status baselineS3Response)) None))
  else
    renewalInit ← apiRequest w (net_uploads_init w) "/uploads/init"
                    (post_json (init_body renewalFile)) token;
    renewalS3Response ← fetch (net_storage w)
                          (storage_request renewalInit renewalFile);
    if negb (r_ok renewalS3Response) then
      throw (ThrownApiError
               (new_ApiError "Failed to upload renewal file to S3"
                  (Some (r_status renewalS3Response)) None))
    else
      mret {| baseline_s3_key := s3_key baselineInit;
              renewal_s3_key := s3_key renewalInit |}.

Record JobMetadata := {
  company_name : option string;
  policy_type : option string;
}.

(** [JSON.stringify] leaves out the properties whose value is
    [undefined]. *)
Definition optional_str (k : string) (v : option string)
  : gmap string JsVal :=
  match v with
  | Some s => {[ k := JStr s ]}
  | None => ∅
  end.

Definition create_body (baseline renewal : string)
    (metadata : option JobMetadata) : JsVal :=
  JObj ({[ "baseline_s3_key" := JStr baseline;
           "renewal_s3_key" := JStr renewal ]}
        ∪ optional_str "metadata_company_name" (metadata ≫= company_name)
        ∪ optional_str "metadata_policy_type" (metadata ≫= policy_type)).

Definition createAnalysis (w : Env) (baseline renewal : string)
    (metadata : option JobMetadata) (token : option string) : M AnalysisJob :=
  apiRequest w (net_create w) "/analyses"
    (post_json (create_body baseline renewal metadata)) token.

Definition getAnalysisStatus (w : Env) (jobId : string)
    (token : option string) : M AnalysisJob :=
  apiRequest w (net_status w) ("/analyses/" +:+ jobId +:+ "/status")
    no_options token.

Definition getAnalysisResult (w : Env) (jobId : string)
    (token : option string) : M AnalysisResult :=
  apiRequest w (net_result w) ("/analyses/" +:+ jobId +:+ "/result")
    no_options token.

Definition getAnalysisHistory (w : Env) (token : option string)
  : M (list AnalysisJob) :=
  apiRequest w (net_history w) "/analyses" no_options token.

End Api.
Import Api.

(* ===================================================================== *)
(** ** The query client, as far as the hooks use it *)
(* ===================================================================== *)

(** The data-fetching library is an external collaborator.  What follows
    is the part of its documented contract that the hooks rely on: a cache
    of entries by key, [setQueryData], [invalidateQueries] with its prefix
    matching of keys, and an observer that fetches only while the query is
    enabled and asks [refetchInterval] for the next fetch each time the
    state of the query has changed. *)
Module Query.

(** A key is an array of strings; [None] is an [undefined] element. *)
Abbreviation QueryKey := (list (option string)).

Inductive QueryData :=
| DataJob (j : AnalysisJob)
| DataJobs (l : list AnalysisJob)
| DataResult (r : AnalysisResult).

Record Entry := {
  e_data : option QueryData;
  e_isInvalidated : bool;
}.

Abbreviation Cache := (gmap QueryKey Entry).

Definition getQueryData (c : Cache) (key : QueryKey) : option QueryData :=
  c !! key ≫= e_data.

Definition setQueryData (key : QueryKey) (d : QueryData) (c : Cache) : Cache :=
  <[ key := {| e_data := Some d; e_isInvalidated := false |} ]> c.

(** Every entry whose key starts with [filter] is marked stale. *)
Definition invalidateQueries (filter : QueryKey) (c : Cache) : Cache :=
  map_imap
    (λ key e,
       Some (if bool_decide (filter `prefix_of` key)
             then {| e_data := e_data e; e_isInvalidated := true |}
             else e))
    c.

(** [query.state], for a query of data type [T]. *)
Record QueryState (T : Type) := {
  data : option T;            (* the last successfully fetched value *)
  error : option Thrown;      (* the failure of the last fetch, if it failed *)
  isFetching : bool;          (* a fetch is in flight *)
}.
Arguments data {T} _.
Arguments error {T} _.
Arguments isFetching {T} _.

(** [number | false] *)
Inductive Interval :=
| NoRefetch
| EveryMs (ms : Z).

(** [refetchInterval]: a value, or a function of the query. *)
Inductive Refetch (T : Type) :=
| RefetchEvery (i : Interval)
| RefetchBy (f : QueryState T → Interval).
Arguments RefetchEvery {T} i.
Arguments RefetchBy {T} f.

(** [retry]: [false] or a number of attempts. *)
Inductive Retry :=
| RetryNever
| RetryTimes (n : nat).

(** The options object a hook gives to [useQuery]; [None] is a property
    the hook leaves out. *)
Record QueryOptions (T : Type) := {
  queryKey : QueryKey;
  queryFn : Env → M T;
  enabled : option bool;
  refetchInterval : option (Refetch T);
  refetchIntervalInBackground : option bool;
  staleTime : option Z;
  retry : option Retry;
}.
Arguments queryKey {T} _.
Arguments queryFn {T} _.
Arguments enabled {T} _.
Arguments refetchInterval {T} _.
Arguments refetchIntervalInBackground {T} _.
Arguments staleTime {T} _.
Arguments retry {T} _.

(** The state of the query once a fetch has settled. *)
Definition settled {T} (q : QueryState T) (res : Thrown + T) : QueryState T :=
  match res with
  | inr v => {| data := Some v; error := None; isFetching := false |}
  | inl e => {| data := data q; error := Some e; isFetching := false |}
  end.

(** A query is enabled unless the options say [enabled: false]. *)
Definition is_enabled {T} (o : QueryOptions T) : bool :=
  default true (enabled o).

(** The interval the options give for the query in state [q]; none when
    the options leave [refetchInterval] out. *)
Definition interval {T} (o : QueryOptions T) (q : QueryState T) : Interval :=
  match refetchInterval o with
  | None => NoRefetch
  | Some (RefetchEvery i) => i
  | Some (RefetchBy f) => f q
  end.

(** The times at which the observer will fetch again, decided at time
    [now] for the query in state [q]: none when the query is disabled,
    when the interval is [false], or when the view is out of focus and
    background polling is off. *)
Definition scheduled {T} (o : QueryOptions T) (focused : bool)
    (q : QueryState T) (now : Z) : list Z :=
  if is_enabled o
     && (default false (refetchIntervalInBackground o) || focused)
  then
    match interval o q with
    | NoRefetch => []
    | EveryMs ms => [now + ms]
    end
  else [].

(** The observer for at most [fuel] fetches: the state of the query, the
    times of the fetches and the requests issued. *)
Fixpoint observe {T} (fuel : nat) (w : Env) (o : QueryOptions T)
    (focused : bool) (q : QueryState T) (now : Z) (tr : list Request)
  : QueryState T * list Z * list Request :=
  match fuel with
  | O => (q, [], tr)
  | S n =>
      if is_enabled o then
        let '(res, tr') := queryFn o w tr in
        let q' := settled q res in
        match scheduled o focused q' now with
        | t :: _ =>
            let '(q'', ts, tr'') := observe n w o focused q' t tr' in
            (q'', now :: ts, tr'')
        | [] => (q', [now], tr')
        end
      else (q, [], tr)
  end.

End Query.
Import Query.

(* ===================================================================== *)
(** ** hooks/use-analysis.ts *)
(* ===================================================================== *)

Module Hooks.

Module ANALYSIS_QUERY_KEYS.

Definition all : QueryKey := [Some "analysis"].

Definition status (jobId : option string) : QueryKey :=
  all ++ [Some "status"; jobId].

Definition result (jobId : option string) : QueryKey :=
  all ++ [Some "result"; jobId].

Definition history : QueryKey := all ++ [Some "history"].

End ANALYSIS_QUERY_KEYS.

(** [await getToken()] *)
Definition awaitToken (w : Env) : M (option string) :=
  match getToken w with
  | inl e => throw (thrown_of e)
  | inr t => mret t
  end.

Record CreateVariables := {
  baselineFile : File;
  renewalFile : File;
  metadata : option JobMetadata;
}.

(** [useCreateAnalysis]: the [mutationFn]. *)
Definition mutationFn (w : Env) (v : CreateVariables) : M AnalysisJob :=
  token ← awaitToken w;
  keys ← uploadFiles w (baselineFile v) (renewalFile v) token;
  createAnalysis w (baseline_s3_key keys) (renewal_s3_key keys)
    (metadata v) token.

(** [useCreateAnalysis]: [onSuccess]. *)
Definition onSuccess (data : AnalysisJob) (c : Cache) : Cache :=
  invalidateQueries ANALYSIS_QUERY_KEYS.history
    (setQueryData (ANALYSIS_QUERY_KEYS.status (Some (job_id data)))
       (DataJob data) c).

(** The mutation as the library runs it: [onSuccess] is called with the
    value [mutationFn] resolves to, and not at all when it rejects. *)
Definition mutate (w : Env) (v : CreateVariables) (c : Cache)
  : (Thrown + AnalysisJob) * list Request * Cache :=
  match mutationFn w v [] with
  | (inr job, tr) => (inr job, tr, onSuccess job c)
  | (inl e, tr) => (inl e, tr, c)
  end.

(** [`${jobId}`] for a job identifier that may be missing at run time. *)
Definition template (jobId : option string) : string :=
  default "undefined" jobId.

(** [status === s] for [status = query.state.data?.status]. *)
Definition status_is (st : option string) (s : string) : bool :=
  match st with
  | Some x => String.eqb x s
  | None => false
  end.

Definition statusRefetchInterval (query : QueryState AnalysisJob) : Interval :=
  let status := job_status <$> data query in
  if status_is status "completed" || status_is status "failed"
  then NoRefetch
  else EveryMs 3000.

(** [useAnalysisStatus(jobId, enabled = true)] *)
Definition useAnalysisStatus (jobId : option string) (enabled : option bool)
  : QueryOptions AnalysisJob :=
  {| queryKey := ANALYSIS_QUERY_KEYS.status jobId;
     queryFn := λ w, token ← awaitToken w;
                     getAnalysisStatus w (template jobId) token;
     Query.enabled := Some (default true enabled && truthy_str jobId);
     refetchInterval := Some (RefetchBy statusRefetchInterval);
     refetchIntervalInBackground := Some true;
     staleTime := None;
     retry := None |}.

(** [useAnalysisResult(jobId, enabled = true, poll = false)] *)
Definition useAnalysisResult (jobId : option string) (enabled : option bool)
    (poll : option bool) : QueryOptions AnalysisResult :=
  {| queryKey := ANALYSIS_QUERY_KEYS.result jobId;
     queryFn := λ w, token ← awaitToken w;
                     getAnalysisResult w (template jobId) token;
     Query.enabled := Some (default true enabled && truthy_str jobId);
     staleTime := Some (5 * 60 * 1000);
     refetchInterval :=
       Some (RefetchEvery (if default false poll then EveryMs 2000
                           else NoRefetch));
     refetchIntervalInBackground := None;
     retry := Some (if default false poll then RetryTimes 3 else RetryNever) |}.

(** [useAnalysisHistory()] *)
Definition useAnalysisHistory : QueryOptions (list AnalysisJob) :=
  {| queryKey := ANALYSIS_QUERY_KEYS.history;
     queryFn := λ w, token ← awaitToken w; getAnalysisHistory w token;
     Query.enabled := None;
     staleTime := Some (60 * 1000);
     refetchInterval := None;
     refetchIntervalInBackground := None;
     retry := None |}.

End Hooks.
Import Hooks.

(* ===================================================================== *)
(** ** hooks/use-onboarding.ts and app/onboarding/page.tsx *)
(* ===================================================================== *)

Module Onboarding.

Inductive QuestionType := text | boolean.

Module Question.

(** [interface Question]; the icon is a visual component and is left
    out. *)
Record t := {
  id : string;
  title : string;
  subtitle : string;
  type : QuestionType;
  placeholder : option string;
}.

End Question.

Definition QUESTIONS : list Question.t := [
  {| Question.id := "location";
     Question.title := "Where is your business located?";
     Question.subtitle :=
       "This helps us assess location-specific risks like property and premise liability.";
     Question.type := text;
     Question.placeholder := Some "e.g., New York, NY" |};
  {| Question.id := "climate";
     Question.title :=
       "Does your inventory require refrigeration or climate control?";
     Question.subtitle :=
       "Climate-sensitive inventory may need specific coverage for temperature-related losses.";
     Question.type := boolean;
     Question.placeholder := None |};
  {| Question.id := "events";
     Question.title :=
       "Do clients pay you for professional advice, designs, or technical services?";
     Question.subtitle :=
       "Professional services carry unique liability risks that standard policies may not cover.";
     Question.type := boolean;
     Question.placeholder := None |};
  {| Question.id := "errorsAndOmissions";
     Question.title :=
       "Do you currently have Errors & Omissions (E&O) coverage?";
     Question.subtitle :=
       "E&O insurance protects against claims of professional mistakes or negligent advice.";
     Question.type := boolean;
     Question.placeholder := None |};
  {| Question.id := "payments";
     Question.title :=
       "Do you handle customer data and payments digitally?";
     Question.subtitle :=
       "Digital transactions create cyber exposure that may require specialized coverage.";
     Question.type := boolean;
     Question.placeholder := None |}
].

(** [string | boolean] *)
Inductive Answer :=
| AnswerString (s : string)
| AnswerBoolean (b : bool).

Definition answer_value (a : Answer) : JsVal :=
  match a with
  | AnswerString s => JStr s
  | AnswerBoolean b => JBool b
  end.

(** The identity provider's user object: its [unsafeMetadata]. *)
Record User := { unsafeMetadata : gmap string JsVal }.

(** What [useAuth()] and [useUser()] return. *)
Record Clerk := {
  auth_isLoaded : bool;
  auth_userId : option string;
  user_isLoaded : bool;
  user : option User;
}.

(** [user?.unsafeMetadata?.hasCompletedOnboarding] *)
Definition hasCompletedOnboarding (c : Clerk) : JsVal :=
  default JUndefined (user c ≫= λ u, unsafeMetadata u !! "hasCompletedOnboarding").

(** *** [useOnboardingGuard] *)

Definition hasCompleted (c : Clerk) : bool :=
  user_isLoaded c
  && match hasCompletedOnboarding c with JBool true => true | _ => false end.

Definition needsOnboarding (c : Clerk) : bool :=
  user_isLoaded c
  && match user c with Some _ => true | None => false end
  && negb (truthy (hasCompletedOnboarding c)).

Record Guard := {
  isOnboarded : bool;
  isLoading : bool;
  guard_pushed : list string;     (* [router.push] of the effect *)
}.

Definition useOnboardingGuard (c : Clerk) : Guard :=
  {| isOnboarded := hasCompleted c;
     isLoading := negb (user_isLoaded c)
                  || match user c with Some _ => false | None => true end
                  || needsOnboarding c;
     guard_pushed := if needsOnboarding c then ["/onboarding"] else [] |}.

(** *** [OnboardingPage] *)

(** The component's state ([useState]), the identity provider as the hooks
    show it, and what the component has done to the outside: the routes
    pushed, the [user.update] calls issued (each with its [unsafeMetadata]
    argument), the errors logged, and the [handleNext] calls suspended at
    their [await]. *)
Record Page := {
  clerk : Clerk;
  currentStep : Z;
  answers : gmap string Answer;
  isSubmitting : bool;
  pushed : list string;
  updates : list (gmap string JsVal);
  logged : list Thrown;
  awaiting_update : nat;      (* suspended on a [user.update] promise *)
  awaiting_nothing : nat;     (* suspended on [await undefined] *)
}.

Definition alreadyCompleted (p : Page) : bool :=
  auth_isLoaded (clerk p) && truthy (hasCompletedOnboarding (clerk p)).

(** [QUESTIONS[currentStep]] *)
Definition question_at (step : Z) : option Question.t :=
  if step <? 0 then None else QUESTIONS !! Z.to_nat step.

Definition isLastStep (p : Page) : bool :=
  currentStep p =? Z.of_nat (length QUESTIONS) - 1.

(** [answers[question.id]] *)
Definition currentAnswer (p : Page) (question : Question.t) : option Answer :=
  answers p !! Question.id question.

Definition canProceed (p : Page) (question : Question.t) : bool :=
  match Question.type question with
  | text =>
      match currentAnswer p question with
      | Some (AnswerString s) => (0 <? String.length (trim s))%nat
      | _ => false
      end
  | boolean =>
      match currentAnswer p question with
      | Some _ => true
      | None => false
      end
  end.

(** What the component renders. *)
Inductive View :=
| Spinner
| QuestionCard (question : Question.t) (backDisabled nextDisabled : bool)
| RenderError.        (* [question.id] of an [undefined] question *)

Definition render (p : Page) : View :=
  if negb (auth_isLoaded (clerk p)) || negb (truthy_str (auth_userId (clerk p)))
     || alreadyCompleted p
  then Spinner
  else match question_at (currentStep p) with
       | None => RenderError
       | Some question =>
           QuestionCard question
             (currentStep p =? 0)
             (negb (canProceed p question) || isSubmitting p)
       end.

(** The object literal given to [user.update] as [unsafeMetadata]. *)
Definition completion_metadata (u : User) (a : gmap string Answer)
  : gmap string JsVal :=
  <[ "onboardingAnswers" := JObj (answer_value <$> a) ]>
    (<[ "hasCompletedOnboarding" := JBool true ]> (unsafeMetadata u)).

Definition set_step (z : Z) (p : Page) : Page :=
  {| clerk := clerk p; currentStep := z; answers := answers p;
     isSubmitting := isSubmitting p; pushed := pushed p; updates := updates p;
     logged := logged p; awaiting_update := awaiting_update p;
     awaiting_nothing := awaiting_nothing p |}.

Definition set_answers (a : gmap string Answer) (p : Page) : Page :=
  {| clerk := clerk p; currentStep := currentStep p; answers := a;
     isSubmitting := isSubmitting p; pushed := pushed p; updates := updates p;
     logged := logged p; awaiting_update := awaiting_update p;
     awaiting_nothing := awaiting_nothing p |}.

Definition set_submitting (b : bool) (p : Page) : Page :=
  {| clerk := clerk p; currentStep := currentStep p; answers := answers p;
     isSubmitting := b; pushed := pushed p; updates := updates p;
     logged := logged p; awaiting_update := awaiting_update p;
     awaiting_nothing := awaiting_nothing p |}.

Definition router_push (route : string) (p : Page) : Page :=
  {| clerk := clerk p; currentStep := currentStep p; answers := answers p;
     isSubmitting := isSubmitting p; pushed := pushed p ++ [route];
     updates := updates p; logged := logged p;
     awaiting_update := awaiting_update p;
     awaiting_nothing := awaiting_nothing p |}.

Definition console_error (e : Thrown) (p : Page) : Page :=
  {| clerk := clerk p; currentStep := currentStep p; answers := answers p;
     isSubmitting := isSubmitting p; pushed := pushed p; updates := updates p;
     logged := logged p ++ [e]; awaiting_update := awaiting_update p;
     awaiting_nothing := awaiting_nothing p |}.

(** [user?.update({ unsafeMetadata: ... })] up to its [await]: the call is
    issued when there is a user, and the handler is suspended. *)
Definition call_update (p : Page) : Page :=
  match user (clerk p) with
  | Some u =>
      {| clerk := clerk p; currentStep := currentStep p; answers := answers p;
         isSubmitting := isSubmitting p; pushed := pushed p;
         updates := updates p ++ [completion_metadata u (answers p)];
         logged := logged p; awaiting_update := S (awaiting_update p);
         awaiting_nothing := awaiting_nothing p |}
  | None =>
      {| clerk := clerk p; currentStep := currentStep p; answers := answers p;
         isSubmitting := isSubmitting p; pushed := pushed p;
         updates := updates p; logged := logged p;
         awaiting_update := awaiting_update p;
         awaiting_nothing := S (awaiting_nothing p) |}
  end.

(** [handleNext] up to its [await] (to its end when this is not the last
    step). *)
Definition handleNext (p : Page) : Page :=
  if isLastStep p then call_update (set_submitting true p)
  else set_step (currentStep p + 1) p.

(** [handleNext] after its [await]: the promise was fulfilled ([None]) or
    rejected with an error. *)
Definition handleNext_resume (outcome : option Thrown) (p : Page) : Page :=
  match outcome with
  | None => router_push "/dashboard" p
  | Some e => set_submitting false (console_error e p)
  end.

Definition handleBack (p : Page) : Page :=
  if 0 <? currentStep p then set_step (currentStep p - 1) p else p.

Definition setAnswer (question : Question.t) (value : Answer) (p : Page)
  : Page :=
  set_answers (<[ Question.id question := value ]> (answers p)) p.

(** The effect that redirects: it runs after the first render and after
    each render in which [alreadyCompleted] has changed. *)
Definition redirect_effect (before : option bool) (p : Page) : Page :=
  if bool_decide (before ≠ Some (alreadyCompleted p)) && alreadyCompleted p
  then router_push "/dashboard" p
  else p.

(** Entering the wizard. *)
Definition mount (c : Clerk) : Page :=
  redirect_effect None
    {| clerk := c; currentStep := 0; answers := ∅; isSubmitting := false;
       pushed := []; updates := []; logged := [];
       awaiting_update := 0; awaiting_nothing := 0 |}.

(** *** Events *)

(** What can happen to a mounted page: the user acts on what is rendered,
    a suspended [handleNext] resumes, or the identity provider's hooks
    return something new. *)
Inductive Event :=
| Type_ (s : string)          (* [onChange] of the text input *)
| PressEnter                  (* [onKeyDown] of the text input *)
| ClickYes
| ClickNo
| ClickBack
| ClickNext
| UpdateSettled (outcome : option Thrown)   (* a [user.update] promise *)
| NothingSettled                            (* an [await undefined] *)
| ClerkChanged (c : Clerk).

Definition set_clerk (c : Clerk) (p : Page) : Page :=
  {| clerk := c; currentStep := currentStep p; answers := answers p;
     isSubmitting := isSubmitting p; pushed := pushed p; updates := updates p;
     logged := logged p; awaiting_update := awaiting_update p;
     awaiting_nothing := awaiting_nothing p |}.

Definition resumed_update (p : Page) : Page :=
  {| clerk := clerk p; currentStep := currentStep p; answers := answers p;
     isSubmitting := isSubmitting p; pushed := pushed p; updates := updates p;
     logged := logged p; awaiting_update := Nat.pred (awaiting_update p);
     awaiting_nothing := awaiting_nothing p |}.

Definition resumed_nothing (p : Page) : Page :=
  {| clerk := clerk p; currentStep := currentStep p; answers := answers p;
     isSubmitting := isSubmitting p; pushed := pushed p; updates := updates p;
     logged := logged p; awaiting_update := awaiting_update p;
     awaiting_nothing := Nat.pred (awaiting_nothing p) |}.

(** The page after an event, or [None] when the event cannot happen: a
    control that is not rendered or is disabled receives no event, and
    only a suspended handler resumes. *)
Definition dispatch (ev : Event) (p : Page) : option Page :=
  match ev with
  | UpdateSettled outcome =>
      if (0 <? awaiting_update p)%nat
      then Some (handleNext_resume outcome (resumed_update p))
      else None
  | NothingSettled =>
      if (0 <? awaiting_nothing p)%nat
      then Some (handleNext_resume None (resumed_nothing p))
      else None
  | ClerkChanged c =>
      Some (redirect_effect (Some (alreadyCompleted p)) (set_clerk c p))
  | _ =>
      match render p with
      | QuestionCard question backDisabled nextDisabled =>
          match ev, Question.type question with
          | Type_ s, text => Some (setAnswer question (AnswerString s) p)
          | PressEnter, text =>
              if canProceed p question then Some (handleNext p) else None
          | ClickYes, boolean => Some (setAnswer question (AnswerBoolean true) p)
          | ClickNo, boolean => Some (setAnswer question (AnswerBoolean false) p)
          | ClickBack, _ =>
              if backDisabled then None else Some (handleBack p)
          | ClickNext, _ =>
              if nextDisabled then None else Some (handleNext p)
          | _, _ => None
          end
      | _ => None
      end
  end.

(** The pages the wizard can be in. *)
Inductive reachable : Page → Prop :=
| reachable_mount c : reachable (mount c)
| reachable_dispatch ev p p' :
    reachable p → dispatch ev p = Some p' → reachable p'.

End Onboarding.
Import Onboarding.

(* ===================================================================== *)
(** ** Vocabulary of the statements, and concrete environments *)
(* ===================================================================== *)

Module Statements.

(** The request of [apiRequest("/uploads/init", ...)] for a file. *)
Definition init_request (w : Env) (f : File) (token : option string)
  : Request :=
  api_request w "/uploads/init" (post_json (init_body f)) token.

(** A create-analysis request: a JSON body sent to [/analyses]. *)
Definition is_create_request (w : Env) (r : Request) : bool :=
  bool_decide (q_url r = API_BASE_URL w +:+ "/analyses")
  && match q_body r with JsonBody _ => true | _ => false end.

(** The value [apiRequest] resolves to for an outcome of [fetch], if it
    resolves: the typed body of a response in the 200 range. *)
Definition delivered {T} (out : FetchOutcome T) : option T :=
  match out with
  | Resolves r =>
      if r_ok r then
        match r_body r with Json _ typed => Some typed | NotJson _ => None end
      else None
  | Rejects _ => None
  end.

(** What [apiRequest] makes of an outcome of its [fetch]: the wrapper run
    against a server that gives this outcome. *)
Definition api_outcome {T} (w : Env) (out : FetchOutcome T) : Thrown + T :=
  (apiRequest w (λ _ _, out) "" no_options None []).1.

(** The request of [createAnalysis] for the keys of two uploaded files. *)
Definition create_request (w : Env) (keys : UploadedKeys)
    (m : option JobMetadata) (tok : option string) : Request :=
  api_request w "/analyses"
    (post_json (create_body (baseline_s3_key keys) (renewal_s3_key keys) m))
    tok.

(** The baseline file is fully uploaded: its init request (the first
    request) delivered the destination [bi], and the transfer to it (the
    second request) was answered [sb], in the 200 range. *)
Definition BaselineUploaded (w : Env) (bf : File) (tok : option string)
    (bi : UploadInitResponse) (sb : Response unit) : Prop :=
  delivered (net_uploads_init w 0 (init_request w bf tok)) = Some bi
  ∧ net_storage w 1 (storage_request bi bf) = Resolves sb
  ∧ r_ok sb = true.

(** The runs of [uploadFiles] from an empty history, by the step at which
    they end: the result and the requests issued. *)
Inductive UploadRun (w : Env) (bf rf : File) (tok : option string)
  : (Thrown + UploadedKeys) * list Request → Prop :=
| run_baseline_init_failed t :
    api_outcome w (net_uploads_init w 0 (init_request w bf tok)) = inl t →
    UploadRun w bf rf tok (inl t, [init_request w bf tok])
| run_baseline_transfer_rejected bi x :
    delivered (net_uploads_init w 0 (init_request w bf tok)) = Some bi →
    net_storage w 1 (storage_request bi bf) = Rejects x →
    UploadRun w bf rf tok
      (inl (thrown_of x), [init_request w bf tok; storage_request bi bf])
| run_baseline_transfer_refused bi sb :
    delivered (net_uploads_init w 0 (init_request w bf tok)) = Some bi →
    net_storage w 1 (storage_request bi bf) = Resolves sb →
    r_ok sb = false →
    UploadRun w bf rf tok
      (inl (ThrownApiError
              (new_ApiError "Failed to upload baseline file to S3"
                 (Some (r_status sb)) None)),
       [init_request w bf tok; storage_request bi bf])
| run_renewal_init_failed bi sb t :
    BaselineUploaded w bf tok bi sb →
    api_outcome w (net_uploads_init w 2 (init_request w rf tok)) = inl t →
    UploadRun w bf rf tok
      (inl t,
       [init_request w bf tok; storage_request bi bf; init_request w rf tok])
| run_renewal_transfer_rejected bi sb ri x :
    BaselineUploaded w bf tok bi sb →
    delivered (net_uploads_init w 2 (init_request w rf tok)) = Some ri →
    net_storage w 3 (storage_request ri rf) = Rejects x →
    UploadRun w bf rf tok
      (inl (thrown_of x),
       [init_request w bf tok; storage_request bi bf; init_request w rf tok;
        storage_request ri rf])
| run_renewal_transfer_refused bi sb ri sr :
    BaselineUploaded w bf tok bi sb →
    delivered (net_uploads_init w 2 (init_request w rf tok)) = Some ri →
    net_storage w 3 (storage_request ri rf) = Resolves sr →
    r_ok sr = false →
    UploadRun w bf rf tok
      (inl (ThrownApiError
              (new_ApiError "Failed to upload renewal file to S3"
                 (Some (r_status sr)) None)),
       [init_request w bf tok; storage_request bi bf; init_request w rf tok;
        storage_request ri rf])
| run_uploaded bi sb ri sr :
    BaselineUploaded w bf tok bi sb →
    delivered (net_uploads_init w 2 (init_request w rf tok)) = Some ri →
    net_storage w 3 (storage_request ri rf) = Resolves sr →
    r_ok sr = true →
    UploadRun w bf rf tok
      (inr {| baseline_s3_key := s3_key bi; renewal_s3_key := s3_key ri |},
       [init_request w bf tok; storage_request bi bf; init_request w rf tok;
        storage_request ri rf]).

(** Terminal statuses of a job (spec, glossary): completed and failed. *)
Definition terminal (status : option string) : Prop :=
  status = Some "completed" ∨ status = Some "failed".

(** The type constraint of a question on its answer, in the words of the
    spec: a string that is not empty once trimmed for a text question, a
    defined boolean for a yes/no question. *)
Definition satisfies_constraint (question : Question.t) (a : option Answer)
  : Prop :=
  match Question.type question with
  | text => ∃ s, a = Some (AnswerString s) ∧ trim s ≠ ""
  | boolean => ∃ b, a = Some (AnswerBoolean b)
  end.

(** Every stored answer has the type of its question. *)
Definition answers_typed (a : gmap string Answer) : Prop :=
  ∀ question v,
    question ∈ QUESTIONS → a !! Question.id question = Some v →
    match Question.type question, v with
    | text, AnswerString _ | boolean, AnswerBoolean _ => True
    | _, _ => False
    end.

Definition in_range (step : Z) : Prop :=
  0 ≤ step < Z.of_nat (length QUESTIONS).

(** The [handleNext] calls suspended at their [await]. *)
Definition in_flight (p : Page) : nat :=
  (awaiting_update p + awaiting_nothing p)%nat.

(** At most one submission is in flight, and the wizard is submitting
    while there is one. *)
Definition one_in_flight (p : Page) : Prop :=
  (in_flight p ≤ 1)%nat ∧ ((0 < in_flight p)%nat → isSubmitting p = true).

(** *** Concrete environments *)

Definition baseline_pdf : File :=
  {| f_name := "baseline.pdf"; f_content := "%PDF-1.7 baseline" |}.
Definition renewal_pdf : File :=
  {| f_name := "renewal.pdf"; f_content := "%PDF-1.7 renewal" |}.

Definition two_files : CreateVariables :=
  {| baselineFile := baseline_pdf; renewalFile := renewal_pdf;
     metadata := Some {| company_name := Some "Acme"; policy_type := None |} |}.

Definition destination (key : string) : UploadInitResponse :=
  {| upload_url := "https://storage.example/bucket";
     fields := {[ "key" := key ]};
     s3_key := key;
     expires_at := "2030-01-01T00:00:00Z";
     max_file_size_mb := 25 |}.

Definition ok_json {T} (raw : JsVal) (typed : T) : FetchOutcome T :=
  Resolves {| r_status := 200; r_statusText := "OK"; r_body := Json raw typed |}.

(** A failure response whose body is not JSON. *)
Definition server_error {T} : FetchOutcome T :=
  Resolves {| r_status := 500; r_statusText := "Internal Server Error";
              r_body := NotJson "Unexpected end of JSON input" |}.

Definition stored : FetchOutcome unit :=
  Resolves {| r_status := 204; r_statusText := "No Content";
              r_body := NotJson "Unexpected end of JSON input" |}.

Definition refused : FetchOutcome unit :=
  Resolves {| r_status := 403; r_statusText := "Forbidden";
              r_body := NotJson "Unexpected token < in JSON" |}.

Definition job_1 : AnalysisJob :=
  {| job_id := "job-1"; job_status := "pending"; job_metadata := None |}.

(** A cache in which an empty job history was fetched before. *)
Definition cache_with_history : Cache :=
  {[ ANALYSIS_QUERY_KEYS.history :=
       {| e_data := Some (DataJobs []); e_isInvalidated := false |} ]}.

Definition job_json (j : AnalysisJob) : JsVal :=
  JObj {[ "job_id" := JStr (job_id j); "status" := JStr (job_status j) ]}.

Definition destination_for (i : nat) : FetchOutcome UploadInitResponse :=
  let key := if Nat.eqb i 0 then "uploads/baseline" else "uploads/renewal" in
  ok_json (JObj {[ "s3_key" := JStr key ]}) (destination key).

(** Every request succeeds. *)
Definition world_ok : Env :=
  {| NEXT_PUBLIC_API_URL := None;
     getToken := inr (Some "t0k3n");
     net_uploads_init := λ i _, destination_for i;
     net_storage := λ _ _, stored;
     net_create := λ _ _, ok_json (job_json job_1) job_1;
     net_status := λ _ _, ok_json (job_json job_1) job_1;
     net_result := λ _ _, server_error;
     net_history := λ _ _, ok_json (JArr [job_json job_1]) [job_1] |}.

(** As [world_ok], with other servers for the uploads. *)
Definition with_uploads
    (init : nat → Request → FetchOutcome UploadInitResponse)
    (storage : nat → Request → FetchOutcome unit) : Env :=
  {| NEXT_PUBLIC_API_URL := NEXT_PUBLIC_API_URL world_ok;
     getToken := getToken world_ok;
     net_uploads_init := init;
     net_storage := storage;
     net_create := net_create world_ok;
     net_status := net_status world_ok;
     net_result := net_result world_ok;
     net_history := net_history world_ok |}.

(** The storage target refuses the baseline file (the second request). *)
Definition world_baseline_refused : Env :=
  with_uploads (λ i _, destination_for i)
    (λ i _, if Nat.eqb i 1 then refused else stored).

(** The storage target refuses the renewal file (the fourth request). *)
Definition world_renewal_refused : Env :=
  with_uploads (λ i _, destination_for i)
    (λ i _, if Nat.eqb i 3 then refused else stored).

(** The init request of the baseline file (the first request) fails. *)
Definition world_baseline_init_fails : Env :=
  with_uploads (λ i _, if Nat.eqb i 0 then server_error else destination_for i)
    (λ _ _, stored).

(** The init request of the renewal file (the third request) fails. *)
Definition world_renewal_init_fails : Env :=
  with_uploads (λ i _, if Nat.eqb i 2 then server_error else destination_for i)
    (λ _ _, stored).

Definition connection_lost {T} : FetchOutcome T :=
  Rejects (RejError "TypeError" "Failed to fetch").

(** The connection breaks during the transfer of the baseline file (the
    second request). *)
Definition world_baseline_transfer_lost : Env :=
  with_uploads (λ i _, destination_for i)
    (λ i _, if Nat.eqb i 1 then connection_lost else stored).

(** The connection breaks during the transfer of the renewal file (the
    fourth request). *)
Definition world_renewal_transfer_lost : Env :=
  with_uploads (λ i _, destination_for i)
    (λ i _, if Nat.eqb i 3 then connection_lost else stored).

(** The status endpoint answers 500 with the JSON body [null]. *)
Definition world_null_error_body : Env :=
  {| NEXT_PUBLIC_API_URL := None;
     getToken := inr None;
     net_uploads_init := λ _ _, server_error;
     net_storage := λ _ _, refused;
     net_create := λ _ _, server_error;
     net_status := λ _ _,
       Resolves {| r_status := 500; r_statusText := "Internal Server Error";
                   r_body := Json JNull job_1 |};
     net_result := λ _ _, server_error;
     net_history := λ _ _, server_error |}.

(** *** Concrete pages of the wizard *)

Definition signed_in (meta : gmap string JsVal) : Clerk :=
  {| auth_isLoaded := true; auth_userId := Some "user_1";
     user_isLoaded := true; user := Some {| unsafeMetadata := meta |} |}.

(** A new user, with a field of some other feature in the metadata. *)
Definition new_user : Clerk := signed_in {[ "theme" := JStr "dark" ]}.

(** A user who has completed the onboarding. *)
Definition onboarded_user : Clerk :=
  signed_in {[ "hasCompletedOnboarding" := JBool true ]}.

(** The events of a user who answers the five questions and confirms. *)
Definition answer_all : list Event :=
  [ Type_ "Boston, MA"; ClickNext;
    ClickNo; ClickNext;
    ClickYes; ClickNext;
    ClickNo; ClickNext;
    ClickYes ].

Definition dispatch_all (evs : list Event) (p : Page) : option Page :=
  foldl (λ acc ev, acc ≫= dispatch ev) (Some p) evs.

(** The page on the last question, every question answered. *)
Definition page_on_last_step : Page :=
  default (mount new_user) (dispatch_all answer_all (mount new_user)).

Definition save_failed : Thrown := ThrownError "Error" "Network request failed".

(** The second question, and the page after the answer "No" to it. *)
Definition climate_question : Question.t :=
  {| Question.id := "climate";
     Question.title :=
       "Does your inventory require refrigeration or climate control?";
     Question.subtitle :=
       "Climate-sensitive inventory may need specific coverage for temperature-related losses.";
     Question.type := boolean;
     Question.placeholder := None |}.

Definition page_answered_no : Page :=
  default (mount new_user)
    (dispatch_all [Type_ "Boston, MA"; ClickNext; ClickNo] (mount new_user)).

End Statements.
Import Statements.

(* ===================================================================== *)
(** ** Vocabulary of the further properties *)
(* ===================================================================== *)

Module Further.

(** [url] starts with [base]. *)
Definition url_under (base url : string) : Prop := ∃ rest, url = base +:+ rest.

(** A success answer without a body. *)
Definition no_content {T} : FetchOutcome T :=
  Resolves {| r_status := 204; r_statusText := "No Content";
              r_body := NotJson "Unexpected end of JSON input" |}.

Definition result_not_ready : Response AnalysisResult :=
  {| r_status := 404; r_statusText := "Not Found";
     r_body := Json (JObj {[ "message" := JStr "Result not ready";
                             "code" := JStr "NOT_READY" ]})
                 {| result_job_id := ""; result_payload := JNull |} |}.

(** The status endpoint cannot be reached, the result is not ready, and
    the history is answered without a body. *)
Definition world_of_failures : Env :=
  {| NEXT_PUBLIC_API_URL := Some "";
     getToken := inr (Some "");
     net_uploads_init := λ _ _, server_error;
     net_storage := λ _ _, refused;
     net_create := λ _ _, server_error;
     net_status := λ _ _, connection_lost;
     net_result := λ _ _, Resolves result_not_ready;
     net_history := λ _ _, no_content |}.

(** The identity provider hands out no token. *)
Definition world_without_token : Env :=
  {| NEXT_PUBLIC_API_URL := None;
     getToken := inl (RejError "Error" "Clerk is not loaded");
     net_uploads_init := net_uploads_init world_ok;
     net_storage := net_storage world_ok;
     net_create := net_create world_ok;
     net_status := net_status world_ok;
     net_result := net_result world_ok;
     net_history := net_history world_ok |}.

(** The questions before the current one are answered, each within the
    constraint of its type. *)
Definition earlier_answered (p : Page) : Prop :=
  ∀ i q, 0 ≤ i < currentStep p → question_at i = Some q →
         satisfies_constraint q (answers p !! Question.id q).

(** A metadata object that holds a true completion flag and, for every
    question, an answer within the constraint of its type. *)
Definition complete_write (m : gmap string JsVal) : Prop :=
  m !! "hasCompletedOnboarding" = Some (JBool true)
  ∧ ∃ a : gmap string Answer,
      m !! "onboardingAnswers" = Some (JObj (answer_value <$> a))
      ∧ ∀ q, q ∈ QUESTIONS → satisfies_constraint q (a !! Question.id q).

(** The events of the answer controls, and of the navigation controls. *)
Definition is_answer (ev : Event) : bool :=
  match ev with Type_ _ | ClickYes | ClickNo => true | _ => false end.

Definition is_navigation (ev : Event) : bool :=
  match ev with PressEnter | ClickNext | ClickBack => true | _ => false end.

Definition is_control (ev : Event) : bool := is_answer ev || is_navigation ev.

(** A user whose completion flag is the string ["yes"]. *)
Definition half_onboarded : Clerk :=
  signed_in {[ "hasCompletedOnboarding" := JStr "yes" ]}.

(** The page once the user has confirmed on the last question, and once
    the write has then succeeded. *)
Definition page_submitting : Page := handleNext page_on_last_step.

Definition page_submitted : Page :=
  handleNext_resume None (resumed_update page_submitting).

(** The page on the last question when the user object is gone. *)
Definition page_without_user : Page :=
  set_clerk {| auth_isLoaded := true; auth_userId := Some "user_1";
               user_isLoaded := false; user := None |}
    page_on_last_step.

End Further.
Import Further.

(* ===================================================================== *)
(** ** The HTTP client wrapper *)
(* ===================================================================== *)

Ltac run_m :=
  unfold apiRequest, try_catch, fetch, json, json_raw, read, throw in *;
  unfold mbind, mret, M_bind, M_ret in *; cbn beta iota.

(** One call of [apiRequest] issues one request, and its result depends
    on the outcome of that request only. *)
Lemma apiRequest_run {T} w (net : nat → Request → FetchOutcome T) ep o tok tr :
  apiRequest w net ep o tok tr
  = (api_outcome w (net (length tr) (api_request w ep o tok)),
     tr ++ [api_request w ep o tok]).
Proof.
  unfold api_outcome. run_m.
  destruct (net (length tr) _) as [[n m|v]|r]; cbn; try reflexivity.
  destruct (r_ok r); cbn.
  - destruct (r_body r); reflexivity.
  - destruct (r_body r) as [m|raw ty]; cbn; try reflexivity.
    destruct raw; reflexivity.
Qed.

(** It resolves to the typed body exactly when the response is in the 200
    range and parses; every other outcome is an [ApiError]. *)
Lemma api_outcome_cases {T} w (out : FetchOutcome T) :
  match delivered out with
  | Some t => api_outcome w out = inr t
  | None => ∃ e, api_outcome w out = inl (ThrownApiError e)
  end.
Proof.
  unfold api_outcome, delivered. run_m.
  destruct out as [[n m|v]|r]; cbn; eauto.
  destruct (r_ok r); cbn.
  - destruct (r_body r); cbn; eauto.
  - destruct (r_body r) as [m|raw ty]; cbn; eauto.
    destruct raw; cbn; eauto.
Qed.

Lemma delivered_api_outcome {T} w (out : FetchOutcome T) t :
  delivered out = Some t → api_outcome w out = inr t.
Proof. intros H. pose proof (api_outcome_cases w out) as D. by rewrite H in D. Qed.

(** Whatever [apiRequest] throws is an [ApiError]. *)
Lemma apiRequest_throws_ApiError {T} w (net : nat → Request → FetchOutcome T)
    ep o tok tr t :
  (apiRequest w net ep o tok tr).1 = inl t → ∃ e, t = ThrownApiError e.
Proof.
  rewrite apiRequest_run. cbn.
  pose proof (api_outcome_cases w (net (length tr) (api_request w ep o tok)))
    as H.
  destruct (delivered _); [by rewrite H|].
  destruct H as [e ->]. intros [= <-]. eauto.
Qed.

(** X2: no response received: the error carries the message of the
    rejection when it is an [Error], the fixed message "Network error
    occurred" when it is another value, and neither status nor code. *)
Lemma apiRequest_transport_error {T} w (net : nat → Request → FetchOutcome T)
    ep o tok tr x :
  net (length tr) (api_request w ep o tok) = Rejects x →
  (apiRequest w net ep o tok tr).1
  = inl (ThrownApiError
           (new_ApiError
              match x with
              | RejError _ msg => msg
              | RejValue _ => "Network error occurred"
              end None None)).
Proof. intros H. run_m. rewrite H. by destruct x. Qed.


(** C7 (what the code does at the failing input): a 500 response whose
    body is the JSON value [null] makes the read of [errorData.message]
    throw; the wrapper then reports an [ApiError] without the status of
    the response. *)
Theorem apiRequest_null_error_body_loses_status :
  let req := api_request world_null_error_body "/analyses/job-1/status"
               no_options None in
  (∃ r, net_status world_null_error_body 0 req = Resolves r
        ∧ r_ok r = false ∧ r_status r = 500)
  ∧ (getAnalysisStatus world_null_error_body "job-1" None []).1
    = inl (ThrownApiError
             (new_ApiError
                "Cannot read properties of null (reading 'message')"
                None None)).
Proof.
  cbn zeta. split; [|reflexivity].
  eexists. split; [reflexivity|]. split; reflexivity.
Qed.

(** The direct [fetch] of [uploadFiles] is outside the wrapper: when the
    storage target cannot be reached, the rejection is thrown as it is. *)
Example storage_transport_failure_is_not_wrapped :
  (uploadFiles world_baseline_transfer_lost baseline_pdf renewal_pdf None []).1
  = inl (ThrownError "TypeError" "Failed to fetch").
Proof. reflexivity. Qed.

(* ===================================================================== *)
(** ** Job creation *)
(* ===================================================================== *)

Ltac upload_cases H := inversion H; subst; clear H.

Ltac open_baseline :=
  repeat match goal with
         | H : BaselineUploaded _ _ _ _ _ |- _ => destruct H as (? & ? & ?)
         end.

Lemma uploadFiles_run w bf rf tok :
  UploadRun w bf rf tok (uploadFiles w bf rf tok []).
Proof.
  unfold uploadFiles.
  unfold mbind at 1, M_bind at 1. rewrite apiRequest_run.
  fold (init_request w bf tok). cbn [length app].
  pose proof (api_outcome_cases w
                (net_uploads_init w 0 (init_request w bf tok))) as D.
  destruct (api_outcome w _) as [t|bi0] eqn:Hbi.
  { by apply run_baseline_init_failed. }
  destruct (delivered _) as [bi|] eqn:Hd; [|by destruct D].
  injection D as ->.
  unfold mbind at 1, M_bind at 1, fetch at 1. cbn [length app].
  destruct (net_storage w 1%nat _) as [x|sb] eqn:Hsb.
  { cbn; eapply run_baseline_transfer_rejected; eassumption. }
  destruct (r_ok sb) eqn:Hok; cbn [negb].
  2:{ cbn; eapply run_baseline_transfer_refused; eassumption. }
  assert (BaselineUploaded w bf tok bi sb) as Hb by done.
  unfold mbind at 1, M_bind at 1. rewrite apiRequest_run.
  fold (init_request w rf tok). cbn [length app].
  pose proof (api_outcome_cases w
                (net_uploads_init w 2 (init_request w rf tok))) as D'.
  destruct (api_outcome w (net_uploads_init w 2 _)) as [t|ri0] eqn:Hri.
  { by eapply run_renewal_init_failed. }
  destruct (delivered (net_uploads_init w 2 _)) as [ri|] eqn:Hd';
    [|by destruct D'].
  injection D' as ->.
  unfold mbind at 1, M_bind at 1, fetch at 1. cbn [length app].
  destruct (net_storage w 3%nat _) as [x|sr] eqn:Hsr.
  { cbn; eapply run_renewal_transfer_rejected; eassumption. }
  destruct (r_ok sr) eqn:Hok'; cbn [negb].
  - cbn; eapply run_uploaded; eassumption.
  - cbn; eapply run_renewal_transfer_refused; eassumption.
Qed.

Lemma append_inv_head (s a b : string) : s +:+ a = s +:+ b → a = b.
Proof. induction s as [|c s IH]; cbn; [done|]. intros [= H]. auto. Qed.

Lemma init_request_not_create w f tok :
  is_create_request w (init_request w f tok) = false.
Proof.
  unfold is_create_request, init_request, api_request; cbn.
  rewrite bool_decide_eq_false_2; [done|].
  intros H%append_inv_head. discriminate.
Qed.

Lemma storage_request_not_create w i f :
  is_create_request w (storage_request i f) = false.
Proof. unfold is_create_request; cbn. by rewrite andb_false_r. Qed.

Lemma create_request_is_create w keys m tok :
  is_create_request w (create_request w keys m tok) = true.
Proof.
  unfold is_create_request, create_request, api_request; cbn.
  by rewrite bool_decide_eq_true_2.
Qed.

Lemma mutationFn_run w v tok :
  getToken w = inr tok →
  mutationFn w v [] =
    match uploadFiles w (baselineFile v) (renewalFile v) tok [] with
    | (inl e, tr) => (inl e, tr)
    | (inr keys, tr) =>
        createAnalysis w (baseline_s3_key keys) (renewal_s3_key keys)
          (metadata v) tok tr
    end.
Proof.
  intros Htok. unfold mutationFn, awaitToken. rewrite Htok.
  unfold mbind, M_bind, mret, M_ret.
  by destruct (uploadFiles _ _ _ _ _) as [[e|keys] tr].
Qed.

(** [mutationFn] stops where [uploadFiles] fails, and issues one more
    request, the create-analysis request, where it succeeds. *)
Lemma mutationFn_cases w v tok :
  getToken w = inr tok →
  ∃ res tr,
    uploadFiles w (baselineFile v) (renewalFile v) tok [] = (res, tr)
    ∧ UploadRun w (baselineFile v) (renewalFile v) tok (res, tr)
    ∧ match res with
      | inl e => mutationFn w v [] = (inl e, tr)
      | inr keys =>
          ∃ job, mutationFn w v [] =
                   (job, tr ++ [create_request w keys (metadata v) tok])
      end.
Proof.
  intros Htok. rewrite (mutationFn_run w v tok Htok).
  pose proof (uploadFiles_run w (baselineFile v) (renewalFile v) tok) as Hrun.
  destruct (uploadFiles _ _ _ _ _) as [[e|keys] tr];
    [exists (inl e), tr|exists (inr keys), tr];
    (split; [reflexivity|]); (split; [exact Hrun|]); [reflexivity|].
  unfold createAnalysis. rewrite apiRequest_run. by eexists.
Qed.

Lemma not_create_among w (l : list Request) :
  Forall (λ r, is_create_request w r = false) l →
  ∀ r, r ∈ l → is_create_request w r = false.
Proof. intros H r Hr. by eapply Forall_forall in H. Qed.

(** The renewal file's init request is the third request, and is issued
    only once the baseline file is fully uploaded. *)
Lemma uploads_are_sequential w v tok r :
  getToken w = inr tok →
  (mutationFn w v []).2 !! 2%nat = Some r →
  r = init_request w (renewalFile v) tok
  ∧ ∃ bi sb, BaselineUploaded w (baselineFile v) tok bi sb
      ∧ (mutationFn w v []).2 !! 0%nat
        = Some (init_request w (baselineFile v) tok)
      ∧ (mutationFn w v []).2 !! 1%nat
        = Some (storage_request bi (baselineFile v)).
Proof.
  intros Htok.
  destruct (mutationFn_cases w v tok Htok) as (res & tr & _ & Hrun & Hm).
  upload_cases Hrun; cbn in Hm;
    try (lazymatch type of Hm with ex _ => destruct Hm as [job Hm] end);
    rewrite Hm; cbn; intros [= <-]; eauto 10.
Qed.

(** No request is a create-analysis request when [uploadFiles] fails, and
    the failure of [uploadFiles] is the failure of the operation. *)
Lemma upload_failure_aborts w v tok err :
  getToken w = inr tok →
  (uploadFiles w (baselineFile v) (renewalFile v) tok []).1 = inl err →
  (mutationFn w v []).1 = inl err
  ∧ ∀ r, r ∈ (mutationFn w v []).2 → is_create_request w r = false.
Proof.
  intros Htok.
  destruct (mutationFn_cases w v tok Htok) as (res & tr & -> & Hrun & Hm).
  cbn [fst]. intros ->. rewrite Hm. cbn [fst snd]. split; [reflexivity|].
  apply not_create_among.
  upload_cases Hrun;
    repeat (constructor;
            auto using init_request_not_create, storage_request_not_create).
Qed.

(** Once both files are uploaded, the fifth and last request is the
    create-analysis request. *)
Lemma upload_success_creates w v tok keys :
  getToken w = inr tok →
  (uploadFiles w (baselineFile v) (renewalFile v) tok []).1 = inr keys →
  (mutationFn w v []).2 !! 4%nat = Some (create_request w keys (metadata v) tok)
  ∧ length (mutationFn w v []).2 = 5%nat.
Proof.
  intros Htok.
  destruct (mutationFn_cases w v tok Htok) as (res & tr & -> & Hrun & Hm).
  cbn [fst]. intros ->. destruct Hm as [job ->].
  upload_cases Hrun. done.
Qed.

Lemma baseline_refusal_reported w v tok bi sb :
  getToken w = inr tok →
  delivered (net_uploads_init w 0 (init_request w (baselineFile v) tok))
    = Some bi →
  net_storage w 1 (storage_request bi (baselineFile v)) = Resolves sb →
  r_ok sb = false →
  (mutationFn w v []).1
  = inl (ThrownApiError
           (new_ApiError "Failed to upload baseline file to S3"
              (Some (r_status sb)) None)).
Proof.
  intros Htok Hbi Hsb Hno.
  pose proof (delivered_api_outcome w _ _ Hbi).
  destruct (mutationFn_cases w v tok Htok) as (res & tr & _ & Hrun & Hm).
  upload_cases Hrun; open_baseline; simplify_eq; try congruence;
    rewrite Hm; cbn [fst]; congruence.
Qed.

Lemma renewal_refusal_reported w v tok bi sb ri sr :
  getToken w = inr tok →
  BaselineUploaded w (baselineFile v) tok bi sb →
  delivered (net_uploads_init w 2 (init_request w (renewalFile v) tok))
    = Some ri →
  net_storage w 3 (storage_request ri (renewalFile v)) = Resolves sr →
  r_ok sr = false →
  (mutationFn w v []).1
  = inl (ThrownApiError
           (new_ApiError "Failed to upload renewal file to S3"
              (Some (r_status sr)) None)).
Proof.
  intros Htok (Hbi & Hsb & Hok) Hri Hsr Hno.
  pose proof (delivered_api_outcome w _ _ Hbi).
  pose proof (delivered_api_outcome w _ _ Hri).
  destruct (mutationFn_cases w v tok Htok) as (res & tr & _ & Hrun & Hm).
  upload_cases Hrun; open_baseline; simplify_eq; try congruence;
    rewrite Hm; cbn [fst]; congruence.
Qed.

(** A failed init request: the operation fails with the error the wrapper
    makes of the server's answer, whichever file the request was for. *)
Lemma init_failure_reported w v tok t :
  getToken w = inr tok →
  (api_outcome w (net_uploads_init w 0 (init_request w (baselineFile v) tok))
   = inl t
   → (mutationFn w v []).1 = inl t)
  ∧ (∀ bi sb,
       BaselineUploaded w (baselineFile v) tok bi sb →
       api_outcome w
         (net_uploads_init w 2 (init_request w (renewalFile v) tok)) = inl t →
       (mutationFn w v []).1 = inl t).
Proof.
  intros Htok.
  destruct (mutationFn_cases w v tok Htok) as (res & tr & _ & Hrun & Hm).
  split.
  - intros Ht. upload_cases Hrun; open_baseline;
      repeat match goal with
             | H : delivered _ = Some _ |- _ =>
                 apply (delivered_api_outcome w) in H
             end;
      simplify_eq; try congruence; rewrite Hm; cbn [fst]; congruence.
  - intros bi sb (Hbi & Hsb & Hok) Ht.
    apply (delivered_api_outcome w) in Hbi.
    upload_cases Hrun; open_baseline;
      repeat match goal with
             | H : delivered _ = Some _ |- _ =>
                 apply (delivered_api_outcome w) in H
             end;
      simplify_eq; try congruence; rewrite Hm; cbn [fst]; congruence.
Qed.

(** C2 (as amended): in the job-creation operation the third request, if
    there is one, is the renewal file's init request, and by then the
    baseline file is fully uploaded (init request delivered, storage
    transfer answered in the 200 range); if the upload of either file
    fails at any step, the operation fails with that failure and no
    create-analysis request is among the requests issued, whereas after two
    successful uploads the fifth request is the create-analysis request;
    and when the storage target answers the transfer of a file outside the
    200 range, the error is the fixed message naming the baseline or the
    renewal file, with the status of that answer, whereas a failed init
    request makes the operation fail with the error the HTTP wrapper makes
    of the server's answer, the same for both files. *)
Theorem job_creation_upload_failures w v tok (Htok : getToken w = inr tok) :
  let bf := baselineFile v in
  let rf := renewalFile v in
  let run := mutationFn w v [] in
  (∀ r, run.2 !! 2%nat = Some r →
     r = init_request w rf tok
     ∧ ∃ bi sb, BaselineUploaded w bf tok bi sb
         ∧ run.2 !! 0%nat = Some (init_request w bf tok)
         ∧ run.2 !! 1%nat = Some (storage_request bi bf))
  ∧ (∀ err, (uploadFiles w bf rf tok []).1 = inl err →
       run.1 = inl err ∧ ∀ r, r ∈ run.2 → is_create_request w r = false)
  ∧ (∀ keys, (uploadFiles w bf rf tok []).1 = inr keys →
       run.2 !! 4%nat = Some (create_request w keys (metadata v) tok)
       ∧ is_create_request w (create_request w keys (metadata v) tok) = true)
  ∧ (∀ bi sb,
       delivered (net_uploads_init w 0 (init_request w bf tok)) = Some bi →
       net_storage w 1 (storage_request bi bf) = Resolves sb →
       r_ok sb = false →
       run.1 = inl (ThrownApiError
                      (new_ApiError "Failed to upload baseline file to S3"
                         (Some (r_status sb)) None)))
  ∧ (∀ bi sb ri sr,
       BaselineUploaded w bf tok bi sb →
       delivered (net_uploads_init w 2 (init_request w rf tok)) = Some ri →
       net_storage w 3 (storage_request ri rf) = Resolves sr →
       r_ok sr = false →
       run.1 = inl (ThrownApiError
                      (new_ApiError "Failed to upload renewal file to S3"
                         (Some (r_status sr)) None)))
  ∧ (∀ t,
       api_outcome w (net_uploads_init w 0 (init_request w bf tok)) = inl t →
       run.1 = inl t)
  ∧ (∀ t bi sb,
       BaselineUploaded w bf tok bi sb →
       api_outcome w (net_uploads_init w 2 (init_request w rf tok)) = inl t →
       run.1 = inl t).
Proof.
  cbn zeta. split_and!.
  - intros r. by apply uploads_are_sequential.
  - intros err. by apply upload_failure_aborts.
  - intros keys Hk. split.
    + by apply upload_success_creates.
    + apply create_request_is_create.
  - intros bi sb. by apply baseline_refusal_reported.
  - intros bi sb ri sr. by apply renewal_refusal_reported.
  - intros t. by apply init_failure_reported.
  - intros t. by apply init_failure_reported.
Qed.

Lemma job_creation_upload_failures_witness :
  getToken world_renewal_refused = inr (Some "t0k3n")
  ∧ (mutationFn world_renewal_refused two_files []).1
    = inl (ThrownApiError
             (new_ApiError "Failed to upload renewal file to S3"
                (Some 403) None))
  ∧ ∀ r, r ∈ (mutationFn world_renewal_refused two_files []).2 →
         is_create_request world_renewal_refused r = false.
Proof.
  split; [reflexivity|].
  destruct (job_creation_upload_failures world_renewal_refused two_files
              (Some "t0k3n") eq_refl) as (_ & Habort & _ & _ & Hrenewal & _).
  split.
  - eapply (Hrenewal (destination "uploads/baseline") _
              (destination "uploads/renewal")
              {| r_status := 403; r_statusText := "Forbidden";
                 r_body := NotJson "Unexpected token < in JSON" |});
      [repeat split|..]; reflexivity.
  - eapply Habort. reflexivity.
Defined.

(** C2 (counterexample to the claim as stated): an upload may fail
    without the error naming the file.  The same 500 answer to an init
    request makes the operation fail with the same error, whether it is
    the baseline file's init request that fails (one request issued) or
    the renewal file's (three requests issued); and so does a connection
    lost during the transfer of the baseline file (two requests issued) or
    of the renewal file (four requests issued). *)
Lemma upload_failure_names_no_file :
  let run w := mutationFn w two_files [] in
  length (run world_baseline_init_fails).2 = 1%nat
  ∧ length (run world_renewal_init_fails).2 = 3%nat
  ∧ (run world_baseline_init_fails).1
    = inl (ThrownApiError
             (new_ApiError "HTTP 500: Internal Server Error" (Some 500) None))
  ∧ (run world_renewal_init_fails).1 = (run world_baseline_init_fails).1
  ∧ length (run world_baseline_transfer_lost).2 = 2%nat
  ∧ length (run world_renewal_transfer_lost).2 = 4%nat
  ∧ (run world_baseline_transfer_lost).1
    = inl (ThrownError "TypeError" "Failed to fetch")
  ∧ (run world_renewal_transfer_lost).1
    = (run world_baseline_transfer_lost).1.
Proof. cbn zeta. split_and!; reflexivity. Qed.

(** Every request succeeds: five requests, the last one creates the job,
    and the job is in the cache afterwards. *)
Example job_creation_succeeds :
  let '(res, tr, c) := mutate world_ok two_files ∅ in
  res = inr job_1
  ∧ is_create_request world_ok <$> tr = [false; false; false; false; true]
  ∧ getQueryData c (ANALYSIS_QUERY_KEYS.status (Some "job-1"))
    = Some (DataJob job_1).
Proof. vm_compute. split_and!; reflexivity. Qed.

Lemma history_not_prefix_of_status jobId :
  ¬ ANALYSIS_QUERY_KEYS.history `prefix_of` ANALYSIS_QUERY_KEYS.status jobId.
Proof. intros [k Hk]. cbn in Hk. discriminate. Qed.

Lemma onSuccess_status (job : AnalysisJob) (c : Cache) :
  onSuccess job c !! ANALYSIS_QUERY_KEYS.status (Some (job_id job))
  = Some {| e_data := Some (DataJob job); e_isInvalidated := false |}.
Proof.
  unfold onSuccess, invalidateQueries, setQueryData.
  rewrite map_lookup_imap, lookup_insert_eq. cbn.
  rewrite bool_decide_eq_false_2; [done|].
  apply history_not_prefix_of_status.
Qed.

Lemma onSuccess_history (job : AnalysisJob) (c : Cache) e :
  c !! ANALYSIS_QUERY_KEYS.history = Some e →
  onSuccess job c !! ANALYSIS_QUERY_KEYS.history
  = Some {| e_data := e_data e; e_isInvalidated := true |}.
Proof.
  intros H. unfold onSuccess, invalidateQueries, setQueryData.
  rewrite map_lookup_imap, lookup_insert_ne by discriminate.
  rewrite H. cbn. by rewrite bool_decide_eq_true_2.
Qed.

Lemma onSuccess_other (job : AnalysisJob) (c : Cache) key :
  key ≠ ANALYSIS_QUERY_KEYS.status (Some (job_id job)) →
  ¬ ANALYSIS_QUERY_KEYS.history `prefix_of` key →
  onSuccess job c !! key = c !! key.
Proof.
  intros H1 H2. unfold onSuccess, invalidateQueries, setQueryData.
  rewrite map_lookup_imap, lookup_insert_ne by done.
  destruct (c !! key); cbn; [|done].
  by rewrite bool_decide_eq_false_2.
Qed.

(** C6: when the job-creation mutation succeeds with a job, the cache
    afterwards is the one [onSuccess] makes: the entry under the status
    key of the job's identifier holds that job (so it is read without a
    fetch) and is not stale, a cached history entry keeps its data and is
    marked stale, and every entry under another key outside the history
    prefix is as before. *)
Theorem job_creation_success_updates_cache (w : Env) (v : CreateVariables)
    (c c' : Cache) (job : AnalysisJob) (tr : list Request)
    (Hok : mutate w v c = (inr job, tr, c')) :
  let key := ANALYSIS_QUERY_KEYS.status (Some (job_id job)) in
  c' = onSuccess job c
  ∧ getQueryData c' key = Some (DataJob job)
  ∧ e_isInvalidated <$> c' !! key = Some false
  ∧ (∀ e, c !! ANALYSIS_QUERY_KEYS.history = Some e →
       c' !! ANALYSIS_QUERY_KEYS.history
       = Some {| e_data := e_data e; e_isInvalidated := true |})
  ∧ (∀ k, k ≠ key → ¬ ANALYSIS_QUERY_KEYS.history `prefix_of` k →
       c' !! k = c !! k).
Proof.
  unfold mutate in Hok.
  destruct (mutationFn w v []) as [[e|job'] tr']; [done|].
  injection Hok as -> -> <-.
  cbn zeta. split; [done|]. split; [|split; [|split]].
  - unfold getQueryData. by rewrite onSuccess_status.
  - by rewrite onSuccess_status.
  - apply onSuccess_history.
  - intros k. apply onSuccess_other.
Qed.

Lemma job_creation_success_updates_cache_witness :
  (mutate world_ok two_files cache_with_history).1.1 = inr job_1
  ∧ getQueryData (mutate world_ok two_files cache_with_history).2
      (ANALYSIS_QUERY_KEYS.status (Some "job-1")) = Some (DataJob job_1)
  ∧ (mutate world_ok two_files cache_with_history).2
      !! ANALYSIS_QUERY_KEYS.history
    = Some {| e_data := Some (DataJobs []); e_isInvalidated := true |}.
Proof.
  split; [reflexivity|].
  destruct (job_creation_success_updates_cache world_ok two_files
              cache_with_history
              (mutate world_ok two_files cache_with_history).2
              job_1
              (mutate world_ok two_files cache_with_history).1.2
              eq_refl) as (_ & Hstatus & _ & Hhistory & _).
  split; [exact Hstatus|].
  exact (Hhistory {| e_data := Some (DataJobs []); e_isInvalidated := false |}
           eq_refl).
Defined.

(** A failed mutation leaves the cache as it was. *)
Lemma failed_job_creation_keeps_cache w v c e tr c' :
  mutate w v c = (inl e, tr, c') → c' = c.
Proof.
  unfold mutate. destruct (mutationFn w v []) as [[e'|job] tr']; [|done].
  by intros [= _ _ <-].
Qed.

(* ===================================================================== *)
(** ** The job status poller *)
(* ===================================================================== *)

Lemma status_is_spec st s : status_is st s = true ↔ st = Some s.
Proof.
  destruct st as [x|]; cbn; [|split; discriminate].
  rewrite String.eqb_eq. split; congruence.
Qed.

Lemma statusRefetchInterval_terminal q :
  terminal (job_status <$> data q) → statusRefetchInterval q = NoRefetch.
Proof.
  unfold statusRefetchInterval. intros [H|H]; rewrite H; reflexivity.
Qed.

Lemma statusRefetchInterval_polling q :
  ¬ terminal (job_status <$> data q) → statusRefetchInterval q = EveryMs 3000.
Proof.
  unfold statusRefetchInterval, terminal. intros H.
  destruct (status_is _ "completed") eqn:E1.
  { apply status_is_spec in E1. tauto. }
  destruct (status_is _ "failed") eqn:E2.
  { apply status_is_spec in E2. tauto. }
  reflexivity.
Qed.

(** C1: for the query of the status poller in any state, the interval to
    the next fetch depends on the last successfully fetched job only (the
    data of the state: a fetch in flight or a failed fetch changes
    nothing); when the status of that job is completed or failed there is
    no interval and no further fetch is scheduled; for every other status,
    and when no job was fetched yet, the interval is 3000 ms, three units
    of 1000 ms, and exactly one further fetch is scheduled, that long
    after the decision. *)
Theorem status_poller_decision (jobId : option string) (en : option bool)
    (q : QueryState AnalysisJob) (focused : bool) (now : Z) :
  let o := useAnalysisStatus jobId en in
  let last := job_status <$> data q in
  refetchInterval o = Some (RefetchBy statusRefetchInterval)
  ∧ (∀ q', data q' = data q → interval o q' = interval o q)
  ∧ (∀ err, interval o (settled q (inl err)) = interval o q)
  ∧ (terminal last →
       interval o q = NoRefetch ∧ scheduled o focused q now = [])
  ∧ (¬ terminal last →
       interval o q = EveryMs (3 * 1000)
       ∧ (is_enabled o = true →
          scheduled o focused q now = [now + 3 * 1000])).
Proof.
  cbn zeta. split; [reflexivity|]. split; [|split; [|split]].
  - intros q' H. unfold interval. cbn. unfold statusRefetchInterval.
    by rewrite H.
  - intros err. reflexivity.
  - intros H. unfold scheduled, interval.
    cbn [refetchInterval useAnalysisStatus].
    rewrite (statusRefetchInterval_terminal q H).
    split; [reflexivity|]. by destruct (_ && _).
  - intros H. unfold scheduled, interval.
    cbn [refetchInterval refetchIntervalInBackground useAnalysisStatus].
    rewrite (statusRefetchInterval_polling q H).
    split; [reflexivity|]. by intros ->.
Qed.

(** The statuses the spec names, and one it does not. *)
Example status_poller_on_statuses :
  let poll status :=
    scheduled (useAnalysisStatus (Some "job-1") None) false
      {| data := Some {| job_id := "job-1"; job_status := status;
                         job_metadata := None |};
         error := None; isFetching := true |} 10000 in
  poll "pending" = [13000] ∧ poll "processing" = [13000]
  ∧ poll "archived" = [13000] ∧ poll "" = [13000]
  ∧ poll "completed" = [] ∧ poll "failed" = [].
Proof. cbn zeta. split_and!; reflexivity. Qed.

Lemma observe_disabled {T} fuel w (o : QueryOptions T) focused q now tr :
  is_enabled o = false → observe fuel w o focused q now tr = (q, [], tr).
Proof. intros H. destruct fuel; cbn; [done|]. by rewrite H. Qed.

(** One tick of the status poller: the fetch settles, and the observer
    stops when the last successfully fetched job is then terminal, and
    fetches again 3000 ms later otherwise. *)
Lemma observe_status_tick fuel w jobId en focused q now tr :
  is_enabled (useAnalysisStatus jobId en) = true →
  let o := useAnalysisStatus jobId en in
  let run := queryFn o w tr in
  let q' := settled q run.1 in
  (terminal (job_status <$> data q') →
     observe (S fuel) w o focused q now tr = (q', [now], run.2))
  ∧ (¬ terminal (job_status <$> data q') →
     observe (S fuel) w o focused q now tr
     = let '(q'', ts, tr'') := observe fuel w o focused q' (now + 3000) run.2 in
       (q'', now :: ts, tr'')).
Proof.
  intros E. cbn zeta. cbn [observe]. rewrite E.
  destruct (queryFn _ w tr) as [res tr'] eqn:Hrun. cbn [fst snd].
  unfold scheduled, interval. rewrite E.
  cbn [refetchInterval refetchIntervalInBackground useAnalysisStatus default
       orb andb].
  split; intros H.
  - by rewrite (statusRefetchInterval_terminal _ H).
  - by rewrite (statusRefetchInterval_polling _ H).
Qed.

(** C8: when the job identifier is missing or empty, the query of the
    status poller is disabled whatever the [enabled] argument is; the
    observer then issues no request and schedules no fetch, however long it
    runs, and leaves the state of the query as it was (no error is
    produced). *)
Theorem status_poller_disabled_without_id (jobId : option string)
    (en : option bool) (H : jobId = None ∨ jobId = Some "") :
  let o := useAnalysisStatus jobId en in
  enabled o = Some false
  ∧ ∀ fuel w focused q now tr,
      observe fuel w o focused q now tr = (q, [], tr)
      ∧ scheduled o focused q now = [].
Proof.
  cbn zeta.
  assert (enabled (useAnalysisStatus jobId en) = Some false) as E.
  { cbn. f_equal. destruct H as [-> | ->]; cbn; apply andb_false_r. }
  assert (is_enabled (useAnalysisStatus jobId en) = false) as E'.
  { unfold is_enabled. by rewrite E. }
  split; [exact E|]. intros. split.
  - by apply observe_disabled.
  - unfold scheduled. by rewrite E'.
Qed.

Lemma status_poller_disabled_without_id_witness :
  (Some "" = None ∨ Some "" = Some "")
  ∧ enabled (useAnalysisStatus (Some "") (Some true)) = Some false.
Proof.
  split; [right; reflexivity|].
  apply (status_poller_disabled_without_id (Some "") (Some true)).
  right; reflexivity.
Defined.

(** With an identifier the observer does fetch: while the job is pending,
    3000 ms apart. *)
Example status_poller_with_id :
  let w := with_uploads (λ _ _, server_error) (λ _ _, refused) in
  let o := useAnalysisStatus (Some "job-1") None in
  let '(q, times, tr) :=
    observe 10 w o true {| data := None; error := None; isFetching := false |}
      0 [] in
  is_enabled o = true ∧ length tr = 10%nat
  ∧ times = [0; 3000; 6000; 9000; 12000; 15000; 18000; 21000; 24000; 27000].
Proof. vm_compute. split_and!; reflexivity. Qed.

(* ===================================================================== *)
(** ** The onboarding wizard *)
(* ===================================================================== *)

(** *** Trimming *)

Lemma trim_end_empty s :
  trim_end s = "" ↔ ∀ c, c ∈ String.list_ascii_of_string s → is_space c = true.
Proof.
  induction s as [|c s IH]; cbn.
  - split; [|done]. intros _ c Hc. by apply elem_of_nil in Hc.
  - destruct (trim_end s) eqn:E.
    + destruct (is_space c) eqn:Ec.
      * split; [|done]. intros _ c' [->|Hc]%elem_of_cons; [done|].
        by apply IH.
      * split; [done|]. intros H. rewrite H in Ec; [done|]. by left.
    + split; [done|]. intros H.
      assert ("" = String a s0) as [=].
      symmetry. apply IH. intros c' Hc. apply H. by right.
Qed.

Lemma trim_start_empty s :
  trim_start s = "" ↔ ∀ c, c ∈ String.list_ascii_of_string s → is_space c = true.
Proof.
  induction s as [|c s IH]; cbn.
  - split; [|done]. intros _ c Hc. by apply elem_of_nil in Hc.
  - destruct (is_space c) eqn:Ec.
    + rewrite IH. split.
      * intros H c' [->|Hc]%elem_of_cons; auto.
      * intros H c' Hc. apply H. by right.
    + split; [done|]. intros H. rewrite H in Ec; [done|]. by left.
Qed.

Lemma trim_start_head s c r :
  trim_start s = String c r →
  is_space c = false ∧ c ∈ String.list_ascii_of_string s.
Proof.
  induction s as [|c' s IH]; cbn; [done|].
  destruct (is_space c') eqn:Ec.
  - intros H. destruct (IH H). split; [done|]. by right.
  - intros [= -> ->]. split; [done|]. by left.
Qed.

(** A string is empty once trimmed exactly when it holds white space
    only. *)
Lemma trim_empty s :
  trim s = "" ↔ ∀ c, c ∈ String.list_ascii_of_string s → is_space c = true.
Proof.
  unfold trim. destruct (trim_start s) as [|c r] eqn:E.
  - cbn. split; [|done]. intros _. by apply trim_start_empty.
  - destruct (trim_start_head s c r E) as [Hc Hin]. split.
    + intros H. pose proof (proj1 (trim_end_empty _) H c) as H'.
      cbn in H'. rewrite H' in Hc; [done|]. by left.
    + intros H. rewrite (H c Hin) in Hc. done.
Qed.

Lemma some_non_space (l : list Ascii.ascii) :
  ¬ (∀ c, c ∈ l → is_space c = true) ↔ ∃ c, c ∈ l ∧ is_space c = false.
Proof.
  induction l as [|a l IH].
  - split.
    + intros H. exfalso. apply H. intros c Hc. by apply elem_of_nil in Hc.
    + intros (c & Hc & _). by apply elem_of_nil in Hc.
  - split.
    + intros H. destruct (is_space a) eqn:Ea.
      * destruct (proj1 IH) as (c & Hc & Hs).
        { intros Hall. apply H. intros c [->|Hc]%elem_of_cons; auto. }
        exists c. split; [by right|done].
      * exists a. split; [by left|done].
    + intros (c & Hc & Hs) Hall. by rewrite (Hall c Hc) in Hs.
Qed.

Lemma length_pos_nonempty (s : string) :
  (0 <? String.length s)%nat = true ↔ s ≠ "".
Proof. destruct s; cbn; split; done. Qed.

Example trim_examples :
  trim "  New York, NY " = "New York, NY" ∧ trim "   " = "" ∧ trim "" = "".
Proof. split_and!; reflexivity. Qed.

(** *** The questions *)

Lemma question_ids_distinct q q' :
  q ∈ QUESTIONS → q' ∈ QUESTIONS → Question.id q = Question.id q' → q = q'.
Proof.
  unfold QUESTIONS. intros H H'.
  repeat (apply elem_of_cons in H as [->|H]);
    try (by apply elem_of_nil in H);
    repeat (apply elem_of_cons in H' as [->|H']);
    try (by apply elem_of_nil in H'); cbn; done.
Qed.

Lemma question_at_elem step q : question_at step = Some q → q ∈ QUESTIONS.
Proof.
  unfold question_at. destruct (step <? 0); [done|].
  intros H. eapply list_elem_of_lookup_2, H.
Qed.

Lemma question_at_in_range step : in_range step ↔ is_Some (question_at step).
Proof.
  unfold in_range, question_at.
  destruct (Z.ltb_spec step 0).
  - split; [lia|]. by intros [? ?].
  - rewrite lookup_lt_is_Some. lia.
Qed.

(** *** What the handlers keep *)

Lemma handleNext_in_range p :
  in_range (currentStep p) → in_range (currentStep (handleNext p)).
Proof.
  unfold handleNext, isLastStep, in_range, call_update.
  destruct (Z.eqb_spec (currentStep p) (Z.of_nat (length QUESTIONS) - 1)).
  - by destruct (user _).
  - cbn in *. lia.
Qed.

Lemma handleBack_in_range p :
  in_range (currentStep p) → in_range (currentStep (handleBack p)).
Proof.
  unfold handleBack, in_range.
  destruct (Z.ltb_spec 0 (currentStep p)); cbn in *; lia.
Qed.

Lemma handleNext_answers p : answers (handleNext p) = answers p.
Proof.
  unfold handleNext, call_update. destruct (isLastStep p); [|done].
  by destruct (user _).
Qed.

Lemma handleBack_answers p : answers (handleBack p) = answers p.
Proof. unfold handleBack. by destruct (0 <? _). Qed.

Lemma redirect_effect_state b p :
  currentStep (redirect_effect b p) = currentStep p
  ∧ answers (redirect_effect b p) = answers p.
Proof. unfold redirect_effect. by destruct (_ && _). Qed.

Lemma handleNext_resume_state o p :
  currentStep (handleNext_resume o p) = currentStep p
  ∧ answers (handleNext_resume o p) = answers p.
Proof. by destruct o. Qed.

Lemma setAnswer_typed p q v :
  q ∈ QUESTIONS →
  match Question.type q, v with
  | text, AnswerString _ | boolean, AnswerBoolean _ => True
  | _, _ => False
  end →
  answers_typed (answers p) → answers_typed (answers (setAnswer q v p)).
Proof.
  intros Hq Hv Hty q' v' Hq'. cbn.
  destruct (decide (Question.id q = Question.id q')) as [E|E].
  - rewrite E, lookup_insert_eq. intros [= <-].
    by rewrite <- (question_ids_distinct q q' Hq Hq' E).
  - rewrite lookup_insert_ne by done. by apply Hty.
Qed.

(** What every page of the wizard satisfies: the step is the index of a
    question, and the answers have the types of their questions. *)
Lemma reachable_invariant p :
  reachable p → in_range (currentStep p) ∧ answers_typed (answers p).
Proof.
  induction 1 as [c|ev p p' Hp [IHr IHt] Hd].
  - unfold mount. destruct (redirect_effect_state None
      {| clerk := c; currentStep := 0; answers := ∅; isSubmitting := false;
         pushed := []; updates := []; logged := [];
         awaiting_update := 0; awaiting_nothing := 0 |}) as [-> ->].
    cbn. split; [done|]. intros q v _. by rewrite lookup_empty.
  - assert (∀ q back next, render p = QuestionCard q back next → q ∈ QUESTIONS)
      as Hview.
    { intros q back next. unfold render. destruct (_ || _); [done|].
      destruct (question_at _) eqn:Hq; [|done].
      intros [= <- _ _]. by eapply question_at_elem. }
    destruct ev; cbn in Hd.
    1-6: destruct (render p) as [|q back next|] eqn:Hrender; try done;
         specialize (Hview q back next eq_refl);
         destruct (Question.type q) eqn:Hty; try done;
         repeat case_match; simplify_eq;
         rewrite ?handleNext_answers, ?handleBack_answers;
         (split; [first [by apply handleNext_in_range
                        | by apply handleBack_in_range
                        | done]
                 | first [done
                         | apply setAnswer_typed; [done|by rewrite Hty|done]]]).
    + case_match; simplify_eq.
      by destruct (handleNext_resume_state outcome (resumed_update p))
        as [-> ->].
    + case_match; simplify_eq. by cbn.
    + simplify_eq.
      by destruct (redirect_effect_state (Some (alreadyCompleted p))
                     (set_clerk c p)) as [-> ->].
Qed.

(** The text question is the first one, so the Enter key never submits. *)
Lemma text_question_is_first step q :
  question_at step = Some q → Question.type q = text → step = 0.
Proof.
  unfold question_at. destruct (Z.ltb_spec step 0); [done|].
  destruct (Z.to_nat step) as [|[|[|[|[|n]]]]] eqn:E; cbn;
    intros [= <-]; cbn; try done.
  intros _. lia.
Qed.

Lemma handleNext_one_in_flight p :
  one_in_flight p → (isLastStep p = true → isSubmitting p = false) →
  one_in_flight (handleNext p).
Proof.
  unfold one_in_flight, in_flight, handleNext, call_update.
  intros [Hle Hs] Hlast. destruct (isLastStep p); [|done].
  specialize (Hlast eq_refl).
  assert (awaiting_update p + awaiting_nothing p = 0)%nat as H0.
  { destruct (awaiting_update p + awaiting_nothing p)%nat eqn:E; [done|].
    rewrite Hs in Hlast; [done|lia]. }
  destruct (user _); cbn; split; try done; lia.
Qed.

(** X23: on every page the wizard can be in, at most one [handleNext] is
    suspended at its [await], and the wizard is submitting while one is:
    no second write is issued while one is in flight. *)
Lemma at_most_one_write_in_flight p : reachable p → one_in_flight p.
Proof.
  induction 1 as [c|ev p p' Hp IH Hd].
  - unfold mount, redirect_effect. by destruct (_ && _); split; cbn; try lia.
  - assert (∀ q back next, render p = QuestionCard q back next →
              question_at (currentStep p) = Some q
              ∧ next = (negb (canProceed p q) || isSubmitting p)) as Hview.
    { intros q back next. unfold render. destruct (_ || _); [done|].
      destruct (question_at _) eqn:Hq; [|done]. by intros [= <- _ <-]. }
    destruct ev; cbn in Hd.
    1-6: destruct (render p) as [|q back next|] eqn:Hrender; try done;
         destruct (Hview q back next eq_refl) as [Hq Hnext];
         destruct (Question.type q) eqn:Hty; try done;
         repeat case_match; simplify_eq; try exact IH.
    all: try (apply handleNext_one_in_flight; [exact IH|]).
    all: try (unfold handleBack; by destruct (0 <? _)).
    all: try (intros Hl; pose proof (text_question_is_first _ _ Hq Hty) as H0; unfold isLastStep in Hl; rewrite H0 in Hl; done).
    + intros _. destruct (isSubmitting p); [|done].
      rewrite orb_true_r in *. by destruct Hnext.
    + destruct IH as [Hle Hs]. unfold one_in_flight, in_flight in *.
      destruct (awaiting_update p) eqn:E; [done|]. simplify_eq.
      destruct outcome; cbn; rewrite E; cbn; split; intros; lia.
    + destruct IH as [Hle Hs]. unfold one_in_flight, in_flight in *.
      destruct (awaiting_nothing p) eqn:E; [done|]. simplify_eq.
      cbn; rewrite E; cbn; split; intros; lia.
    + simplify_eq. unfold redirect_effect. by destruct (_ && _).
Qed.

Lemma dispatch_all_reachable evs p p' :
  reachable p → dispatch_all evs p = Some p' → reachable p'.
Proof.
  unfold dispatch_all. revert p.
  induction evs as [|ev evs IH]; cbn; intros p Hp.
  - by intros [= <-].
  - destruct (dispatch ev p) as [p1|] eqn:E; cbn.
    + apply IH. by eapply reachable_dispatch.
    + clear. intros H. exfalso. induction evs; cbn in H; [done|auto].
Qed.

Lemma page_on_last_step_reachable : reachable page_on_last_step.
Proof.
  eapply (dispatch_all_reachable answer_all (mount new_user)).
  - apply reachable_mount.
  - vm_compute. reflexivity.
Qed.

Lemma canProceed_spec p q :
  q ∈ QUESTIONS → answers_typed (answers p) →
  canProceed p q = true ↔ satisfies_constraint q (currentAnswer p q).
Proof.
  intros Hin Hty. specialize (Hty q).
  unfold canProceed, satisfies_constraint, currentAnswer in *.
  destruct (Question.type q); destruct (answers p !! Question.id q) as [[s|b]|].
  - rewrite length_pos_nonempty. split; [eauto|]. by intros (? & [= <-] & ?).
  - split; [done|]. by intros (? & ? & _).
  - split; [done|]. by intros (? & ? & _).
  - by destruct (Hty _ Hin eq_refl).
  - split; [eauto|done].
  - split; [done|]. by intros (? & ?).
Qed.

(** *** Moving through the questions *)

(** C4: on every page the wizard can be in, for the question [q] of the
    current step, [canProceed] holds if and only if the answer stored for
    [q] satisfies the type constraint of [q] (a string that is not empty
    once trimmed, that is, with a character that is no white space, for a
    text question; a defined boolean, [false] as well as [true], for a
    yes/no question); and while nothing is being submitted the Next
    button is enabled exactly then. *)
Theorem forward_enabled_iff_answer_valid p q
    (Hr : reachable p) (Hq : question_at (currentStep p) = Some q) :
  (canProceed p q = true ↔ satisfies_constraint q (currentAnswer p q))
  ∧ (∀ back next,
       render p = QuestionCard q back next → isSubmitting p = false →
       (next = false ↔ satisfies_constraint q (currentAnswer p q)))
  ∧ (∀ b, Question.type q = boolean →
          currentAnswer p q = Some (AnswerBoolean b) → canProceed p q = true)
  ∧ (∀ s, Question.type q = text →
          currentAnswer p q = Some (AnswerString s) →
          (canProceed p q = true
           ↔ ∃ c, c ∈ String.list_ascii_of_string s ∧ is_space c = false)).
Proof.
  destruct (reachable_invariant p Hr) as [_ Hty].
  pose proof (question_at_elem _ _ Hq) as Hin.
  pose proof (canProceed_spec p q Hin Hty) as Hiff.
  split; [exact Hiff|]. split; [|split].
  - intros back next Hv Hs. unfold render in Hv.
    destruct (_ || _); [done|]. rewrite Hq, Hs in Hv.
    injection Hv as _ <-. rewrite orb_false_r, negb_false_iff. exact Hiff.
  - intros b Ht Ha. unfold canProceed. by rewrite Ht, Ha.
  - intros s Ht Ha. unfold canProceed. rewrite Ht, Ha, length_pos_nonempty.
    rewrite trim_empty. apply some_non_space.
Qed.

Lemma page_answered_no_reachable : reachable page_answered_no.
Proof.
  eapply (dispatch_all_reachable [Type_ "Boston, MA"; ClickNext; ClickNo]
            (mount new_user)).
  - apply reachable_mount.
  - vm_compute. reflexivity.
Qed.

Lemma forward_enabled_iff_answer_valid_witness :
  reachable page_answered_no
  ∧ question_at (currentStep page_answered_no) = Some climate_question
  ∧ currentAnswer page_answered_no climate_question
    = Some (AnswerBoolean false)
  ∧ canProceed page_answered_no climate_question = true.
Proof.
  split; [exact page_answered_no_reachable|].
  split; [reflexivity|]. split; [reflexivity|].
  refine (proj1 (proj2 (proj2
    (forward_enabled_iff_answer_valid page_answered_no climate_question
       page_answered_no_reachable eq_refl)))
    false eq_refl eq_refl).
Defined.

(** C10: on every page the wizard can be in, the step is at least 0 and
    less than the number of questions, so that the question of the step
    is defined; the wizard starts at step 0; [handleNext] adds one to the
    step when it is not the last and leaves it when it is the last;
    [handleBack] takes one off when the step is greater than zero and
    changes nothing at step 0; and both keep the step in range. *)
Theorem step_index_in_range p (Hr : reachable p) :
  in_range (currentStep p)
  ∧ is_Some (question_at (currentStep p))
  ∧ (isLastStep p = false → currentStep (handleNext p) = currentStep p + 1)
  ∧ (isLastStep p = true → currentStep (handleNext p) = currentStep p)
  ∧ (0 < currentStep p → currentStep (handleBack p) = currentStep p - 1)
  ∧ (currentStep p = 0 → handleBack p = p)
  ∧ in_range (currentStep (handleNext p))
  ∧ in_range (currentStep (handleBack p))
  ∧ ∀ c, currentStep (mount c) = 0.
Proof.
  destruct (reachable_invariant p Hr) as [Hin _].
  split_and!.
  - exact Hin.
  - by apply question_at_in_range.
  - unfold handleNext. by intros ->.
  - unfold handleNext, call_update. intros ->. by destruct (user _).
  - unfold handleBack. intros H.
    by destruct (Z.ltb_spec 0 (currentStep p)); [|lia].
  - unfold handleBack. by intros ->.
  - by apply handleNext_in_range.
  - by apply handleBack_in_range.
  - intros c. unfold mount. by destruct (redirect_effect_state None
      {| clerk := c; currentStep := 0; answers := ∅; isSubmitting := false;
         pushed := []; updates := []; logged := [];
         awaiting_update := 0; awaiting_nothing := 0 |}) as [-> _].
Qed.

Lemma step_index_in_range_witness :
  reachable page_on_last_step
  ∧ currentStep page_on_last_step = 4
  ∧ in_range (currentStep page_on_last_step)
  ∧ currentStep (handleNext page_on_last_step) = 4
  ∧ currentStep (handleBack page_on_last_step) = 3.
Proof.
  split; [exact page_on_last_step_reachable|].
  split; [reflexivity|].
  destruct (step_index_in_range page_on_last_step page_on_last_step_reachable)
    as (Hin & _ & _ & Hlast & Hback & _).
  split; [exact Hin|]. split.
  - exact (Hlast eq_refl).
  - exact (Hback eq_refl).
Defined.

(** *** Completing the onboarding *)

(** C9: when [handleNext] runs on the last step for a loaded user, the
    metadata object it writes is the user's previous metadata with
    [hasCompletedOnboarding] and [onboardingAnswers] added or overwritten:
    every other key reads as before, and no key but these two is new. *)
Theorem completion_write_preserves_metadata p u
    (Hlast : isLastStep p = true) (Hu : user (clerk p) = Some u) :
  ∃ written,
    updates (handleNext p) = updates p ++ [written]
    ∧ written = <[ "onboardingAnswers" := JObj (answer_value <$> answers p) ]>
                  (<[ "hasCompletedOnboarding" := JBool true ]>
                     (unsafeMetadata u))
    ∧ (∀ k, k ≠ "hasCompletedOnboarding" → k ≠ "onboardingAnswers" →
            written !! k = unsafeMetadata u !! k)
    ∧ dom written
      = {[ "onboardingAnswers" ]}
          ∪ ({[ "hasCompletedOnboarding" ]} ∪ dom (unsafeMetadata u)).
Proof.
  exists (completion_metadata u (answers p)).
  split; [|split; [|split]].
  - unfold handleNext, call_update. rewrite Hlast. cbn. by rewrite Hu.
  - reflexivity.
  - intros k H1 H2. unfold completion_metadata.
    by rewrite !lookup_insert_ne.
  - unfold completion_metadata. by rewrite !dom_insert_L.
Qed.

Lemma completion_write_preserves_metadata_witness :
  isLastStep page_on_last_step = true
  ∧ user (clerk page_on_last_step)
    = Some {| unsafeMetadata := {[ "theme" := JStr "dark" ]} |}
  ∧ ∃ written,
      updates (handleNext page_on_last_step) = [written]
      ∧ written !! "theme" = Some (JStr "dark").
Proof.
  split; [reflexivity|]. split; [reflexivity|].
  destruct (completion_write_preserves_metadata page_on_last_step
              {| unsafeMetadata := {[ "theme" := JStr "dark" ]} |}
              eq_refl eq_refl) as (written & Hw & _ & Hframe & _).
  exists written. split; [exact Hw|].
  rewrite Hframe; [reflexivity|discriminate|discriminate].
Defined.

(** C3 (as amended): when [handleNext] runs on the last step for a loaded
    user, it issues exactly one [user.update], whose metadata holds a true
    completion flag and the whole answer map, and the wizard is
    submitting.  If that write fails, the error is logged, [isSubmitting]
    is reset to [false], and answers, step and route are as before the
    click (the page renders as before it, so that the write can be tried
    again) and no further write is issued.  If it succeeds, the wizard
    pushes the route [/dashboard], and no further write is issued. *)
Theorem last_step_submission p u
    (Hlast : isLastStep p = true) (Hu : user (clerk p) = Some u) :
  let written := completion_metadata u (answers p) in
  let p1 := handleNext p in
  updates p1 = updates p ++ [written]
  ∧ written !! "hasCompletedOnboarding" = Some (JBool true)
  ∧ written !! "onboardingAnswers" = Some (JObj (answer_value <$> answers p))
  ∧ (∀ k a, answers p !! k = Some a →
            (answer_value <$> answers p) !! k = Some (answer_value a))
  ∧ isSubmitting p1 = true
  ∧ awaiting_update p1 = S (awaiting_update p)
  ∧ (∀ err,
       let p2 := handleNext_resume (Some err) (resumed_update p1) in
       isSubmitting p2 = false
       ∧ answers p2 = answers p
       ∧ currentStep p2 = currentStep p
       ∧ pushed p2 = pushed p
       ∧ updates p2 = updates p1
       ∧ logged p2 = logged p ++ [err]
       ∧ (isSubmitting p = false → render p2 = render p))
  ∧ (let p2 := handleNext_resume None (resumed_update p1) in
     pushed p2 = pushed p ++ ["/dashboard"]
     ∧ updates p2 = updates p1).
Proof.
  cbn zeta. unfold handleNext, call_update. rewrite Hlast. cbn. rewrite Hu. cbn.
  split_and!; try reflexivity.
  - unfold completion_metadata.
    by rewrite lookup_insert_ne, lookup_insert_eq.
  - unfold completion_metadata. by rewrite lookup_insert_eq.
  - intros k a Ha. by rewrite lookup_fmap, Ha.
  - intros err. split_and!; try reflexivity.
    intros Hs. unfold render, alreadyCompleted, canProceed, currentAnswer. cbn.
    by rewrite Hs.
Qed.

Lemma last_step_submission_witness :
  isLastStep page_on_last_step = true
  ∧ user (clerk page_on_last_step)
    = Some {| unsafeMetadata := {[ "theme" := JStr "dark" ]} |}
  ∧ length (updates (handleNext page_on_last_step)) = 1%nat
  ∧ size (answers
            (handleNext_resume (Some save_failed)
               (resumed_update (handleNext page_on_last_step)))) = 5%nat
  ∧ pushed (handleNext_resume None
              (resumed_update (handleNext page_on_last_step)))
    = ["/dashboard"].
Proof.
  split; [reflexivity|]. split; [reflexivity|].
  destruct (last_step_submission page_on_last_step
              {| unsafeMetadata := {[ "theme" := JStr "dark" ]} |}
              eq_refl eq_refl)
    as (Hw & _ & _ & _ & _ & _ & Hfail & Hok & _).
  split; [by rewrite Hw|]. split.
  - destruct (Hfail save_failed) as (_ & -> & _). reflexivity.
  - exact Hok.
Defined.

(** C3 (counterexample to the claim as stated): the user confirms on the
    last question and the write fails; the wizard is then not in the
    submitting state. *)
Lemma failed_write_leaves_submitting_state :
  let p1 := handleNext page_on_last_step in
  let p2 := handleNext_resume (Some save_failed) (resumed_update p1) in
  isLastStep page_on_last_step = true
  ∧ dispatch ClickNext page_on_last_step = Some p1
  ∧ isSubmitting p1 = true
  ∧ dispatch (UpdateSettled (Some save_failed)) p1 = Some p2
  ∧ isSubmitting p2 = false.
Proof. cbn zeta. split_and!; vm_compute; reflexivity. Qed.

(** Without a user object the optional call issues no write at all, and
    the handler goes on to the dashboard. *)
Example last_step_without_user :
  let p := set_clerk {| auth_isLoaded := true; auth_userId := Some "user_1";
                        user_isLoaded := false; user := None |}
             page_on_last_step in
  render p = render page_on_last_step
  ∧ updates (handleNext p) = []
  ∧ dispatch NothingSettled (handleNext p)
    = Some (handleNext_resume None (resumed_nothing (handleNext p)))
  ∧ pushed (handleNext_resume None (resumed_nothing (handleNext p)))
    = ["/dashboard"].
Proof. cbn zeta. split_and!; vm_compute; reflexivity. Qed.

(** *** Entering the wizard *)

(** C5: when the wizard is entered by a loaded user whose metadata has
    the completion flag set to [true], the page renders the spinner and
    no question, its effect pushes the route [/dashboard] at once, no
    control of the wizard can be used, and the onboarding guard of the
    other pages does not send the user back to the wizard. *)
Theorem completed_user_is_redirected c u
    (Hloaded : auth_isLoaded c = true) (Hu : user c = Some u)
    (Hflag : unsafeMetadata u !! "hasCompletedOnboarding" = Some (JBool true)) :
  render (mount c) = Spinner
  ∧ pushed (mount c) = ["/dashboard"]
  ∧ (∀ ev, (∀ c', ev ≠ ClerkChanged c') → dispatch ev (mount c) = None)
  ∧ needsOnboarding c = false
  ∧ guard_pushed (useOnboardingGuard c) = [].
Proof.
  assert (hasCompletedOnboarding c = JBool true) as Hc.
  { unfold hasCompletedOnboarding. rewrite Hu. cbn. by rewrite Hflag. }
  assert (mount c =
    {| clerk := c; currentStep := 0; answers := ∅; isSubmitting := false;
       pushed := ["/dashboard"]; updates := []; logged := [];
       awaiting_update := 0; awaiting_nothing := 0 |}) as ->.
  { unfold mount, redirect_effect, alreadyCompleted. cbn.
    rewrite Hloaded, Hc. cbn. by rewrite bool_decide_eq_true_2. }
  assert (needsOnboarding c = false) as Hn.
  { unfold needsOnboarding. rewrite Hc. cbn. by rewrite andb_false_r. }
  assert (∀ p, clerk p = c → render p = Spinner) as Hrender.
  { intros p Hp. unfold render, alreadyCompleted. rewrite Hp, Hloaded, Hc. cbn.
    by rewrite orb_true_r. }
  split; [by apply Hrender|]. split; [done|]. split; [|split; [done|]].
  - intros ev Hev. unfold dispatch. rewrite Hrender by done.
    destruct ev; try done. by destruct (Hev c0).
  - unfold useOnboardingGuard. cbn. by rewrite Hn.
Qed.

Lemma completed_user_is_redirected_witness :
  auth_isLoaded onboarded_user = true
  ∧ render (mount onboarded_user) = Spinner
  ∧ pushed (mount onboarded_user) = ["/dashboard"].
Proof.
  split; [reflexivity|].
  destruct (completed_user_is_redirected onboarded_user
              {| unsafeMetadata := {[ "hasCompletedOnboarding" := JBool true ]} |}
              eq_refl eq_refl eq_refl) as (Hrender & Hpush & _).
  split; [exact Hrender|exact Hpush].
Defined.

(** A new user is shown the first question, and is sent to the wizard by
    the guard of the other pages. *)
Example new_user_is_asked :
  (∃ back next,
     render (mount new_user) = QuestionCard
       (default climate_question (QUESTIONS !! 0%nat)) back next)
  ∧ pushed (mount new_user) = []
  ∧ guard_pushed (useOnboardingGuard new_user) = ["/onboarding"].
Proof. split_and!; [eexists _, _|..]; reflexivity. Qed.

(* ===================================================================== *)
(** ** Further properties: the HTTP client and the API functions *)
(* ===================================================================== *)

(** X1: whatever one of the four API functions built on the wrapper
    ([createAnalysis], [getAnalysisStatus], [getAnalysisResult],
    [getAnalysisHistory]) throws is an [ApiError]. *)
Theorem analysisApi_failures_are_ApiErrors w b r m id tok tr t
    (H : (createAnalysis w b r m tok tr).1 = inl t
         ∨ (getAnalysisStatus w id tok tr).1 = inl t
         ∨ (getAnalysisResult w id tok tr).1 = inl t
         ∨ (getAnalysisHistory w tok tr).1 = inl t) :
  ∃ e, t = ThrownApiError e.
Proof.
  destruct H as [H|[H|[H|H]]]; eapply apiRequest_throws_ApiError, H.
Qed.

Lemma analysisApi_failures_are_ApiErrors_witness :
  ∃ e, (getAnalysisStatus world_of_failures "job-1" None []).1
       = inl (ThrownApiError e).
Proof.
  destruct (analysisApi_failures_are_ApiErrors world_of_failures
              "" "" None "job-1" None []
              (ThrownApiError (new_ApiError "Failed to fetch" None None))
              (or_intror (or_introl eq_refl))) as [e He].
  exists e. by rewrite <- He.
Defined.

Lemma apiRequest_transport_error_witness :
  (getAnalysisStatus world_of_failures "job-1" None []).1
  = inl (ThrownApiError (new_ApiError "Failed to fetch" None None)).
Proof.
  exact (apiRequest_transport_error world_of_failures
           (net_status world_of_failures) "/analyses/job-1/status"
           no_options None [] (RejError "TypeError" "Failed to fetch") eq_refl).
Defined.


(** X4: a response in the 200 range whose body is not JSON (a 204 without
    a body, say) makes [apiRequest] fail: the error carries the message of
    the parse failure and neither status nor code, and the one request is
    issued all the same. *)
Theorem ok_response_without_json_is_error {T} w
    (net : nat → Request → FetchOutcome T) ep o tok tr r msg
    (Hnet : net (length tr) (api_request w ep o tok) = Resolves r)
    (Hok : r_ok r = true) (Hbody : r_body r = NotJson msg) :
  apiRequest w net ep o tok tr
  = (inl (ThrownApiError (new_ApiError msg None None)),
     tr ++ [api_request w ep o tok]).
Proof.
  rewrite apiRequest_run, Hnet. f_equal.
  unfold api_outcome. run_m. cbn. rewrite Hok. cbn. by rewrite Hbody.
Qed.

Lemma ok_response_without_json_is_error_witness :
  (getAnalysisHistory world_of_failures (Some "") []).1
  = inl (ThrownApiError
           (new_ApiError "Unexpected end of JSON input" None None)).
Proof.
  unfold getAnalysisHistory.
  by rewrite (ok_response_without_json_is_error world_of_failures
                (net_history world_of_failures) "/analyses" no_options
                (Some "") []
                {| r_status := 204; r_statusText := "No Content";
                   r_body := NotJson "Unexpected end of JSON input" |}
                "Unexpected end of JSON input" eq_refl eq_refl eq_refl).
Defined.

(** X5: when the caller's options carry no headers, the request of
    [apiRequest] has exactly the JSON content type and, for a token that
    is a non-empty string, the header [Authorization: Bearer <token>]; a
    token that is [null], [undefined] or empty gives no [Authorization]
    header.  When the options carry headers, these replace the merged
    ones altogether, content type and bearer token included. *)
Theorem api_request_headers w ep o tok :
  (o_headers o = None →
   ∃ h, q_headers (api_request w ep o tok) = Some h
     ∧ h !! "Content-Type" = Some "application/json"
     ∧ h !! "Authorization"
       = match tok with
         | Some (String c s) => Some ("Bearer " +:+ String c s)
         | _ => None
         end
     ∧ ∀ k, k ≠ "Content-Type" → k ≠ "Authorization" → h !! k = None)
  ∧ (∀ h, o_headers o = Some h → q_headers (api_request w ep o tok) = Some h).
Proof.
  split.
  - intros Ho. eexists. split; [reflexivity|].
    unfold config_headers. rewrite Ho. cbn.
    destruct tok as [[|c s]|]; cbn; split_and!;
      try (intros k H1 H2);
      rewrite ?(left_id_L ∅ (∪)); rewrite ?lookup_union, ?lookup_empty;
      rewrite ?lookup_singleton_ne by done; rewrite ?lookup_singleton_eq;
      try done.
  - intros h Ho. cbn. unfold config_headers. by rewrite Ho.
Qed.

(* ===================================================================== *)
(** ** Further properties: uploads and job creation *)
(* ===================================================================== *)

(** X6: the form of an upload ends with the file, under the name [file],
    and holds before it exactly the fields of the destination, each once;
    no other file is in it. *)
Theorem form_data_entries init f :
  last (form_data init f) = Some ("file", FormFile f)
  ∧ length (form_data init f) = S (size (fields init))
  ∧ (∀ k v, (k, FormString v) ∈ form_data init f ↔ fields init !! k = Some v)
  ∧ (∀ k g, (k, FormFile g) ∈ form_data init f ↔ k = "file" ∧ g = f).
Proof.
  unfold form_data. split_and!.
  - by rewrite last_snoc.
  - rewrite length_app, length_fmap, length_map_to_list. cbn. lia.
  - intros k v. rewrite elem_of_app, list_elem_of_fmap, list_elem_of_singleton.
    split.
    + intros [([k' v'] & [= -> ->] & H)|[=]]. by apply elem_of_map_to_list in H.
    + intros H. left. exists (k, v). split; [done|].
      by apply elem_of_map_to_list.
  - intros k g. rewrite elem_of_app, list_elem_of_fmap, list_elem_of_singleton.
    split.
    + intros [([k' v'] & [=] & _)|[= -> ->]]. done.
    + intros [-> ->]. by right.
Qed.

Lemma uploadFiles_uploaded w bf rf tok bi sb ri sr :
  BaselineUploaded w bf tok bi sb →
  delivered (net_uploads_init w 2 (init_request w rf tok)) = Some ri →
  net_storage w 3 (storage_request ri rf) = Resolves sr →
  r_ok sr = true →
  uploadFiles w bf rf tok []
  = (inr {| baseline_s3_key := s3_key bi; renewal_s3_key := s3_key ri |},
     [init_request w bf tok; storage_request bi bf;
      init_request w rf tok; storage_request ri rf]).
Proof.
  intros (Hbi & Hsb & Hok) Hri Hsr Hok'.
  pose proof (delivered_api_outcome w _ _ Hbi).
  pose proof (delivered_api_outcome w _ _ Hri).
  pose proof (uploadFiles_run w bf rf tok) as Hrun.
  destruct (uploadFiles w bf rf tok []) as [res tr].
  upload_cases Hrun; open_baseline; simplify_eq; congruence.
Qed.

(** X7: [uploadFiles] returns keys exactly when both init requests
    deliver a destination and both transfers are answered in the 200
    range; the keys are then the storage keys of the baseline and of the
    renewal destination, in this order, and four requests were issued. *)
Theorem uploadFiles_succeeds_iff w bf rf tok keys :
  ((uploadFiles w bf rf tok []).1 = inr keys
   ↔ ∃ bi sb ri sr,
       BaselineUploaded w bf tok bi sb
       ∧ delivered (net_uploads_init w 2 (init_request w rf tok)) = Some ri
       ∧ net_storage w 3 (storage_request ri rf) = Resolves sr
       ∧ r_ok sr = true
       ∧ keys = {| baseline_s3_key := s3_key bi;
                   renewal_s3_key := s3_key ri |})
  ∧ ((uploadFiles w bf rf tok []).1 = inr keys →
     length (uploadFiles w bf rf tok []).2 = 4%nat).
Proof.
  split; [split|].
  - pose proof (uploadFiles_run w bf rf tok) as Hrun.
    destruct (uploadFiles w bf rf tok []) as [res tr]. cbn [fst snd].
    intros ->. upload_cases Hrun. eauto 10.
  - intros (bi & sb & ri & sr & Hb & Hri & Hsr & Hok & ->).
    by rewrite (uploadFiles_uploaded w bf rf tok bi sb ri sr).
  - pose proof (uploadFiles_run w bf rf tok) as Hrun.
    destruct (uploadFiles w bf rf tok []) as [res tr]. cbn [fst snd].
    intros ->. by upload_cases Hrun.
Qed.

(** X8: once both files are uploaded, the operation issues a fifth and
    last request and resolves or fails as the wrapper makes of its
    answer: a POST to [/analyses] whose JSON body holds the storage key
    of the baseline destination as [baseline_s3_key], that of the renewal
    destination as [renewal_s3_key], the metadata fields that were given,
    and nothing else (a metadata field that is absent is left out). *)
Theorem create_request_carries_keys w v tok bi sb ri sr
    (Htok : getToken w = inr tok)
    (Hb : BaselineUploaded w (baselineFile v) tok bi sb)
    (Hri : delivered (net_uploads_init w 2 (init_request w (renewalFile v) tok))
           = Some ri)
    (Hsr : net_storage w 3 (storage_request ri (renewalFile v)) = Resolves sr)
    (Hok : r_ok sr = true) :
  ∃ r body,
    (mutationFn w v []).2 !! 4%nat = Some r
    ∧ length (mutationFn w v []).2 = 5%nat
    ∧ (mutationFn w v []).1 = api_outcome w (net_create w 4 r)
    ∧ q_url r = API_BASE_URL w +:+ "/analyses"
    ∧ q_method r = Some "POST"
    ∧ q_body r = JsonBody (JObj body)
    ∧ body !! "baseline_s3_key" = Some (JStr (s3_key bi))
    ∧ body !! "renewal_s3_key" = Some (JStr (s3_key ri))
    ∧ body !! "metadata_company_name"
      = JStr <$> (metadata v ≫= company_name)
    ∧ body !! "metadata_policy_type"
      = JStr <$> (metadata v ≫= policy_type)
    ∧ ∀ k, k ∉ ["baseline_s3_key"; "renewal_s3_key";
                "metadata_company_name"; "metadata_policy_type"] →
           body !! k = None.
Proof.
  rewrite (mutationFn_run w v tok Htok).
  rewrite (uploadFiles_uploaded w _ _ tok bi sb ri sr Hb Hri Hsr Hok).
  unfold createAnalysis. rewrite apiRequest_run. cbn [fst snd length app].
  eexists _, _. split_and!; try reflexivity.
  all: cbn [baseline_s3_key renewal_s3_key];
    destruct (metadata v) as [[[cn|] [pt|]]|]; cbn;
    try (intros k Hk; repeat (apply not_elem_of_cons in Hk as [? Hk]));
    rewrite ?lookup_union, ?lookup_insert_ne, ?lookup_singleton_ne,
      ?lookup_empty by done;
    try rewrite lookup_insert_eq; try rewrite lookup_singleton_eq;
    rewrite ?lookup_insert_ne, ?lookup_singleton_ne, ?lookup_empty by done;
    try rewrite lookup_insert_eq; done.
Qed.

Lemma create_request_carries_keys_witness :
  ∃ r body,
    (mutationFn world_ok two_files []).2 !! 4%nat = Some r
    ∧ q_body r = JsonBody (JObj body)
    ∧ body !! "baseline_s3_key" = Some (JStr "uploads/baseline")
    ∧ body !! "renewal_s3_key" = Some (JStr "uploads/renewal")
    ∧ body !! "metadata_company_name" = Some (JStr "Acme")
    ∧ body !! "metadata_policy_type" = None.
Proof.
  destruct (create_request_carries_keys world_ok two_files (Some "t0k3n")
              (destination "uploads/baseline")
              {| r_status := 204; r_statusText := "No Content";
                 r_body := NotJson "Unexpected end of JSON input" |}
              (destination "uploads/renewal")
              {| r_status := 204; r_statusText := "No Content";
                 r_body := NotJson "Unexpected end of JSON input" |}
              eq_refl (conj eq_refl (conj eq_refl eq_refl))
              eq_refl eq_refl eq_refl)
    as (r & body & H4 & _ & _ & _ & _ & Hb & Hk1 & Hk2 & Hm1 & Hm2 & _).
  exists r, body. by split_and!.
Defined.

(** X9: a request of the job-creation operation that carries headers (the
    bearer token among them) goes to a URL under the API base; the
    transfers to the storage target carry no headers. *)
Theorem bearer_token_stays_with_api w v r h
    (Hr : r ∈ (mutationFn w v []).2) (Hh : q_headers r = Some h) :
  url_under (API_BASE_URL w) (q_url r).
Proof.
  destruct (getToken w) as [x|tok] eqn:Htok.
  { unfold mutationFn, awaitToken in Hr. rewrite Htok in Hr.
    by apply elem_of_nil in Hr. }
  destruct (mutationFn_cases w v tok Htok) as (res & tr & _ & Hrun & Hm).
  assert (∀ l, Forall (λ r, is_Some (q_headers r) →
                             url_under (API_BASE_URL w) (q_url r)) l →
               r ∈ l → url_under (API_BASE_URL w) (q_url r)) as Hall.
  { intros l Hl Hin. eapply Forall_forall in Hl; eauto. }
  upload_cases Hrun; cbn in Hm;
    try (lazymatch type of Hm with ex _ => destruct Hm as [job Hm] end);
    rewrite Hm in Hr; cbn in Hr; eapply Hall; try exact Hr;
    repeat constructor; cbn; try (by intros [? [=]]); intros _; by eexists.
Qed.

Lemma bearer_token_stays_with_api_witness :
  url_under (API_BASE_URL world_ok)
    (API_BASE_URL world_ok +:+ "/uploads/init").
Proof.
  refine (bearer_token_stays_with_api world_ok two_files
            (init_request world_ok baseline_pdf (Some "t0k3n")) _ _ eq_refl).
  vm_compute. left.
Defined.

(** X10: when the identity provider rejects the request for a token, the
    job-creation operation and the three query functions fail with that
    rejection as it is, without issuing any request, and the mutation
    leaves the cache as it was. *)
Theorem no_token_no_request w x (Hx : getToken w = inl x) :
  (∀ v, mutationFn w v [] = (inl (thrown_of x), []))
  ∧ (∀ v c, (mutate w v c).2 = c)
  ∧ (∀ jobId en tr,
       queryFn (useAnalysisStatus jobId en) w tr = (inl (thrown_of x), tr))
  ∧ (∀ jobId en poll tr,
       queryFn (useAnalysisResult jobId en poll) w tr = (inl (thrown_of x), tr))
  ∧ (∀ tr, queryFn useAnalysisHistory w tr = (inl (thrown_of x), tr)).
Proof.
  assert (∀ v, mutationFn w v [] = (inl (thrown_of x), [])) as Hm.
  { intros v. unfold mutationFn, awaitToken. by rewrite Hx. }
  split_and!; try done.
  - intros v c. unfold mutate. by rewrite Hm.
  - intros. cbn. unfold awaitToken. by rewrite Hx.
  - intros. cbn. unfold awaitToken. by rewrite Hx.
  - intros. cbn. unfold awaitToken. by rewrite Hx.
Qed.

Lemma no_token_no_request_witness :
  getToken world_without_token = inl (RejError "Error" "Clerk is not loaded")
  ∧ mutationFn world_without_token two_files []
    = (inl (ThrownError "Error" "Clerk is not loaded"), []).
Proof.
  split; [reflexivity|].
  exact (proj1 (no_token_no_request world_without_token
                  (RejError "Error" "Clerk is not loaded") eq_refl) two_files).
Defined.

(* ===================================================================== *)
(** ** Further properties: the query keys and the hooks *)
(* ===================================================================== *)

(** X11: the status key and the result key of a job determine the job
    identifier; status keys, result keys and the history key never
    coincide; every key extends the key [all]; and neither the history
    key nor a status or result key is a prefix of a key of another
    kind. *)
Theorem query_keys_are_distinct (a b : option string) :
  (ANALYSIS_QUERY_KEYS.status a = ANALYSIS_QUERY_KEYS.status b ↔ a = b)
  ∧ (ANALYSIS_QUERY_KEYS.result a = ANALYSIS_QUERY_KEYS.result b ↔ a = b)
  ∧ ANALYSIS_QUERY_KEYS.status a ≠ ANALYSIS_QUERY_KEYS.result b
  ∧ ANALYSIS_QUERY_KEYS.status a ≠ ANALYSIS_QUERY_KEYS.history
  ∧ ANALYSIS_QUERY_KEYS.result a ≠ ANALYSIS_QUERY_KEYS.history
  ∧ ANALYSIS_QUERY_KEYS.all `prefix_of` ANALYSIS_QUERY_KEYS.status a
  ∧ ANALYSIS_QUERY_KEYS.all `prefix_of` ANALYSIS_QUERY_KEYS.result a
  ∧ ANALYSIS_QUERY_KEYS.all `prefix_of` ANALYSIS_QUERY_KEYS.history
  ∧ ¬ ANALYSIS_QUERY_KEYS.history `prefix_of` ANALYSIS_QUERY_KEYS.status a
  ∧ ¬ ANALYSIS_QUERY_KEYS.history `prefix_of` ANALYSIS_QUERY_KEYS.result a
  ∧ ¬ ANALYSIS_QUERY_KEYS.status a `prefix_of` ANALYSIS_QUERY_KEYS.result b
  ∧ ¬ ANALYSIS_QUERY_KEYS.result a `prefix_of` ANALYSIS_QUERY_KEYS.status b.
Proof.
  split_and!; try done.
  - split; [by intros [=]|by intros ->].
  - split; [by intros [=]|by intros ->].
  - by eexists.
  - by eexists.
  - by eexists.
  - by intros [k [=]].
  - by intros [k [=]].
  - by intros [k [=]].
  - by intros [k [=]].
Qed.

Lemma history_not_prefix_of_result jobId :
  ¬ ANALYSIS_QUERY_KEYS.history `prefix_of` ANALYSIS_QUERY_KEYS.result jobId.
Proof. by intros [k [=]]. Qed.

(** X12: [onSuccess] changes the data of no entry but the status entry of
    the new job; it leaves every result entry and the status entries of
    the other jobs as they were; it removes no entry and adds none but
    that status entry; and running it twice is running it once. *)
Theorem onSuccess_keeps_other_entries (job : AnalysisJob) (c : Cache) :
  (∀ k, k ≠ ANALYSIS_QUERY_KEYS.status (Some (job_id job)) →
        getQueryData (onSuccess job c) k = getQueryData c k)
  ∧ (∀ id, onSuccess job c !! ANALYSIS_QUERY_KEYS.result id
           = c !! ANALYSIS_QUERY_KEYS.result id)
  ∧ (∀ id, id ≠ Some (job_id job) →
           onSuccess job c !! ANALYSIS_QUERY_KEYS.status id
           = c !! ANALYSIS_QUERY_KEYS.status id)
  ∧ (∀ k, is_Some (onSuccess job c !! k)
          ↔ k = ANALYSIS_QUERY_KEYS.status (Some (job_id job))
            ∨ is_Some (c !! k))
  ∧ onSuccess job (onSuccess job c) = onSuccess job c.
Proof.
  split_and!.
  - intros k Hk. unfold getQueryData, onSuccess, invalidateQueries, setQueryData.
    rewrite map_lookup_imap, lookup_insert_ne by done.
    destruct (c !! k) as [e|]; cbn; [|done]. by case_bool_decide.
  - intros id. apply onSuccess_other; [by intros [=]|].
    apply history_not_prefix_of_result.
  - intros id Hid. apply onSuccess_other; [intros [=]; congruence|].
    apply history_not_prefix_of_status.
  - intros k. unfold onSuccess, invalidateQueries, setQueryData.
    rewrite map_lookup_imap.
    destruct (decide (ANALYSIS_QUERY_KEYS.status (Some (job_id job)) = k))
      as [<-|Hne].
    + rewrite lookup_insert_eq. cbn. split; eauto.
    + rewrite lookup_insert_ne by done. destruct (c !! k); cbn.
      * split; eauto.
      * split; [by intros [? ?]|]. intros [->|[? [=]]]. done.
  - apply map_eq. intros k.
    destruct (decide (k = ANALYSIS_QUERY_KEYS.status (Some (job_id job))))
      as [->|Hne].
    + by rewrite !onSuccess_status.
    + unfold onSuccess at 1. unfold invalidateQueries, setQueryData.
      rewrite map_lookup_imap, lookup_insert_ne by done.
      unfold onSuccess, invalidateQueries, setQueryData.
      rewrite map_lookup_imap, lookup_insert_ne by done.
      destruct (c !! k) as [e|]; cbn; [|done].
      by case_bool_decide.
Qed.

(** X13: the query of the result fetcher is enabled exactly when the
    [enabled] argument is not false and the job identifier is a non-empty
    string, and while it is disabled the observer issues nothing; without
    [poll] it never refetches and never retries; with [poll] it retries
    three times and refetches 2000 ms later, but only while the view is
    in focus; its results count as fresh for five minutes. *)
Theorem result_fetcher_options (jobId : option string) (en poll : option bool)
    (q : QueryState AnalysisResult) (now : Z) :
  let o := useAnalysisResult jobId en poll in
  (is_enabled o = true
   ↔ default true en = true ∧ ∃ c s, jobId = Some (String c s))
  ∧ (is_enabled o = false →
     ∀ fuel w focused tr, observe fuel w o focused q now tr = (q, [], tr))
  ∧ (default false poll = false →
     retry o = Some RetryNever ∧ ∀ focused, scheduled o focused q now = [])
  ∧ (poll = Some true →
     retry o = Some (RetryTimes 3)
     ∧ scheduled o false q now = []
     ∧ (is_enabled o = true → scheduled o true q now = [now + 2000]))
  ∧ staleTime o = Some 300000.
Proof.
  cbn zeta. split_and!.
  - unfold is_enabled. cbn. rewrite andb_true_iff. split.
    + intros [H1 H2]. split; [done|]. destruct jobId as [[|c s]|]; try done.
      eauto.
    + intros [H1 (c & s & ->)]. by rewrite H1.
  - intros H fuel w focused tr. by apply observe_disabled.
  - intros H. cbn. rewrite H. split; [done|]. intros focused.
    unfold scheduled, interval. cbn. rewrite H. by destruct (_ && _).
  - intros ->. cbn. split; [done|]. split.
    + unfold scheduled. cbn. by rewrite andb_false_r.
    + intros H. unfold scheduled, interval, is_enabled in *. cbn in *.
      by rewrite H.
  - reflexivity.
Qed.

(* ===================================================================== *)
(** ** Further properties: the onboarding guard *)
(* ===================================================================== *)

(** X14: the guard pushes at most the route [/onboarding], and does so
    exactly when the user needs onboarding; it then reports loading and
    not onboarded; when it reports onboarded it is not loading and pushes
    nothing; and it stops loading only for a loaded user whose completion
    flag is truthy. *)
Theorem guard_is_consistent (c : Clerk) :
  let g := useOnboardingGuard c in
  (guard_pushed g = ["/onboarding"] ∨ guard_pushed g = [])
  ∧ (guard_pushed g = ["/onboarding"] ↔ needsOnboarding c = true)
  ∧ (needsOnboarding c = true → isLoading g = true ∧ isOnboarded g = false)
  ∧ (isOnboarded g = true → isLoading g = false ∧ guard_pushed g = [])
  ∧ (isLoading g = false →
     user_isLoaded c = true ∧ is_Some (user c)
     ∧ truthy (hasCompletedOnboarding c) = true).
Proof.
  cbn zeta. unfold useOnboardingGuard, needsOnboarding, hasCompleted,
    hasCompletedOnboarding. cbn.
  destruct (user_isLoaded c), (user c) as [u|]; cbn;
    try (destruct (unsafeMetadata u !! "hasCompletedOnboarding")
           as [[| |[]|z|[]| |]|]; cbn; try destruct (z =? 0); cbn);
    split_and!; try done; eauto; try (split; done); try (by left);
    try (by right); intros; split_and!; eauto; done.
Qed.

(** X15: on entry the wizard pushes [/dashboard] exactly when the session
    is loaded and the completion flag is truthy, and nothing otherwise;
    for the same state of the identity provider the guard and the wizard
    never both redirect, so the two cannot send the user back and
    forth. *)
Theorem wizard_and_guard_never_bounce (c : Clerk) :
  (pushed (mount c) = ["/dashboard"]
   ↔ auth_isLoaded c = true ∧ truthy (hasCompletedOnboarding c) = true)
  ∧ (pushed (mount c) = ["/dashboard"] ∨ pushed (mount c) = [])
  ∧ (guard_pushed (useOnboardingGuard c) = ["/onboarding"] →
     pushed (mount c) = [])
  ∧ (pushed (mount c) = ["/dashboard"] →
     guard_pushed (useOnboardingGuard c) = []).
Proof.
  unfold mount, redirect_effect, alreadyCompleted, useOnboardingGuard,
    needsOnboarding. cbn.
  destruct (auth_isLoaded c), (truthy (hasCompletedOnboarding c)),
    (user_isLoaded c), (user c); cbn;
    rewrite ?bool_decide_eq_true_2 by done; cbn;
    split_and!; try done; eauto; try (split; [done|by intros [? ?]]);
    by split.
Qed.

(** X16: for a loaded user whose completion flag is truthy without being
    the boolean [true], the wizard shows the spinner and redirects to the
    dashboard, while the guard reports the user as not onboarded, not
    loading, and redirects nowhere: the wizard tests the flag for
    truthiness, the guard for identity with [true]. *)
Theorem truthy_flag_that_is_not_true c u v
    (Hauth : auth_isLoaded c = true) (Huser : user_isLoaded c = true)
    (Hu : user c = Some u)
    (Hv : unsafeMetadata u !! "hasCompletedOnboarding" = Some v)
    (Ht : truthy v = true) (Hne : v ≠ JBool true) :
  render (mount c) = Spinner
  ∧ pushed (mount c) = ["/dashboard"]
  ∧ isOnboarded (useOnboardingGuard c) = false
  ∧ isLoading (useOnboardingGuard c) = false
  ∧ guard_pushed (useOnboardingGuard c) = [].
Proof.
  assert (hasCompletedOnboarding c = v) as Hc.
  { unfold hasCompletedOnboarding. rewrite Hu. cbn. by rewrite Hv. }
  unfold mount, redirect_effect, render, alreadyCompleted, useOnboardingGuard,
    needsOnboarding, hasCompleted. cbn.
  rewrite Hauth, Huser, Hu, Hc, Ht. cbn.
  rewrite bool_decide_eq_true_2 by done. cbn.
  rewrite Hauth, Hc, Ht. cbn. rewrite orb_true_r.
  split_and!; try done.
  destruct v as [| |[]| | | |]; done.
Qed.

Lemma truthy_flag_that_is_not_true_witness :
  truthy (JStr "yes") = true
  ∧ pushed (mount half_onboarded) = ["/dashboard"]
  ∧ isOnboarded (useOnboardingGuard half_onboarded) = false.
Proof.
  split; [reflexivity|].
  destruct (truthy_flag_that_is_not_true half_onboarded
              {| unsafeMetadata := {[ "hasCompletedOnboarding" := JStr "yes" ]} |}
              (JStr "yes") eq_refl eq_refl eq_refl eq_refl eq_refl
              ltac:(discriminate)) as (_ & Hp & Ho & _).
  split; [exact Hp|exact Ho].
Defined.

(* ===================================================================== *)
(** ** Further properties: the wizard *)
(* ===================================================================== *)

Lemma question_at_nonneg i q : question_at i = Some q → 0 ≤ i.
Proof. unfold question_at. destruct (Z.ltb_spec i 0); [done|lia]. Qed.

Lemma question_at_id_inj i j q q' :
  question_at i = Some q → question_at j = Some q' →
  Question.id q = Question.id q' → i = j.
Proof.
  intros Hi Hj. pose proof (question_at_nonneg _ _ Hi).
  pose proof (question_at_nonneg _ _ Hj).
  unfold question_at in *.
  destruct (i <? 0), (j <? 0); try done.
  destruct (Z.to_nat i) as [|[|[|[|[|n]]]]] eqn:Ei;
    destruct (Z.to_nat j) as [|[|[|[|[|m]]]]] eqn:Ej;
    cbn in Hi, Hj; simplify_eq; cbn; try done; intros _; lia.
Qed.

Lemma question_elem_at q : q ∈ QUESTIONS → ∃ i, question_at i = Some q
                                             ∧ 0 ≤ i < Z.of_nat (length QUESTIONS).
Proof.
  intros [n Hn]%list_elem_of_lookup. exists (Z.of_nat n).
  pose proof (lookup_lt_Some _ _ _ Hn).
  unfold question_at. destruct (Z.ltb_spec (Z.of_nat n) 0); [lia|].
  rewrite Nat2Z.id. split; [done|lia].
Qed.

Lemma render_card p q back next :
  render p = QuestionCard q back next →
  question_at (currentStep p) = Some q
  ∧ back = (currentStep p =? 0)
  ∧ next = (negb (canProceed p q) || isSubmitting p).
Proof.
  unfold render. destruct (_ || _); [done|].
  destruct (question_at _); [|done]. by intros [= <- <- <-].
Qed.

Lemma setAnswer_earlier p q v :
  question_at (currentStep p) = Some q →
  earlier_answered p → earlier_answered (setAnswer q v p).
Proof.
  intros Hq He i q' Hi Hq'. cbn in *.
  rewrite lookup_insert_ne; [exact (He i q' Hi Hq')|].
  intros Hid. pose proof (question_at_id_inj _ _ _ _ Hq Hq' Hid). lia.
Qed.

Lemma handleNext_earlier p q :
  question_at (currentStep p) = Some q → answers_typed (answers p) →
  canProceed p q = true →
  earlier_answered p → earlier_answered (handleNext p).
Proof.
  intros Hq Hty Hc He.
  assert (satisfies_constraint q (answers p !! Question.id q)) as Hsat.
  { apply canProceed_spec; [by eapply question_at_elem|done|done]. }
  unfold handleNext, call_update.
  destruct (isLastStep p); [by destruct (user _)|].
  intros i q' Hi Hq'. cbn in *.
  destruct (decide (i = currentStep p)) as [->|]; [by simplify_eq|].
  apply (He i); [lia|done].
Qed.

Lemma handleBack_earlier p :
  earlier_answered p → earlier_answered (handleBack p).
Proof.
  intros He. unfold handleBack. destruct (0 <? _); [|done].
  intros i q Hi Hq. cbn in *. apply (He i); [lia|done].
Qed.

Lemma last_step_write_complete p q u :
  in_range (currentStep p) → isLastStep p = true →
  question_at (currentStep p) = Some q → answers_typed (answers p) →
  canProceed p q = true → earlier_answered p →
  complete_write (completion_metadata u (answers p)).
Proof.
  intros Hin Hlast Hq Hty Hc He.
  apply Z.eqb_eq in Hlast.
  split.
  - unfold completion_metadata.
    by rewrite lookup_insert_ne, lookup_insert_eq.
  - exists (answers p). split.
    + unfold completion_metadata. by rewrite lookup_insert_eq.
    + intros q' [i [Hq' Hi]]%question_elem_at.
      destruct (decide (i = currentStep p)) as [->|].
      * simplify_eq. apply canProceed_spec; [by eapply question_at_elem|done..].
      * apply (He i); [lia|done].
Qed.

(** Before the current question every question is answered within its
    constraint, and every write issued so far is complete. *)
Lemma writes_are_complete_invariant p :
  reachable p → earlier_answered p ∧ Forall complete_write (updates p).
Proof.
  induction 1 as [c|ev p p' Hp [IHe IHw] Hd].
  - unfold mount, redirect_effect. destruct (_ && _); cbn;
      (split; [intros i q Hi; cbn in Hi; lia|constructor]).
  - destruct (reachable_invariant p Hp) as [Hin Hty].
    destruct ev; cbn in Hd.
    1-6: destruct (render p) as [|q back next|] eqn:Hrender; try done;
         destruct (render_card _ _ _ _ Hrender) as (Hq & -> & ->);
         destruct (Question.type q) eqn:Hqt; try done.
    all: repeat case_match; simplify_eq.
    all: try (split; [by apply setAnswer_earlier|done]).
    all: try (split; [by apply handleBack_earlier
                     |unfold handleBack; by destruct (0 <? _)]).
    all: try (match goal with
              | H : negb (canProceed _ _) || _ = false |- _ =>
                  apply orb_false_elim in H as [Hc%negb_false_iff _]
              end).
    all: try (split; [by eapply handleNext_earlier|];
              unfold handleNext, call_update;
              destruct (isLastStep _) eqn:Hlast; [|done];
              destruct (user _) as [u|]; cbn; [|done];
              apply Forall_app; split; [done|];
              constructor; [|done];
              by eapply last_step_write_complete).
    + by destruct outcome.
    + done.
    + unfold redirect_effect. by destruct (_ && _).
Qed.

Lemma page_submitting_reachable : reachable page_submitting.
Proof.
  eapply reachable_dispatch with (ev := ClickNext);
    [exact page_on_last_step_reachable|].
  vm_compute. reflexivity.
Qed.

Lemma page_submitted_reachable : reachable page_submitted.
Proof.
  eapply reachable_dispatch with (ev := UpdateSettled None);
    [exact page_submitting_reachable|].
  vm_compute. reflexivity.
Qed.

(** X17: an event of an answer control changes neither the step, nor the
    writes, the routes or the submitting flag; an event of a navigation
    control changes no answer; no control changes what the identity
    provider shows, the log or the routes; and only Next or Enter can add
    a write. *)
Theorem events_touch_their_own_state ev p p' (Hd : dispatch ev p = Some p') :
  (is_answer ev = false → answers p' = answers p)
  ∧ (is_navigation ev = false → currentStep p' = currentStep p)
  ∧ (is_control ev = true → clerk p' = clerk p ∧ logged p' = logged p)
  ∧ (ev ≠ ClickNext → ev ≠ PressEnter → updates p' = updates p)
  ∧ (is_control ev = true → ev ≠ ClickNext → ev ≠ PressEnter →
     pushed p' = pushed p ∧ isSubmitting p' = isSubmitting p)
  ∧ (is_control ev = true → pushed p' = pushed p).
Proof.
  unfold dispatch in Hd.
  destruct ev; cbn in Hd;
    try (destruct (render p) as [|q back next|]; [done| |done];
         destruct (Question.type q)); repeat case_match; simplify_eq;
    unfold handleNext, handleBack, call_update, redirect_effect, handleNext_resume in *;
    repeat case_match; cbn; split_and!; try done; intros; try done;
    by split.
Qed.

Lemma events_touch_their_own_state_witness :
  dispatch ClickBack page_on_last_step = Some (handleBack page_on_last_step)
  ∧ answers (handleBack page_on_last_step) = answers page_on_last_step
  ∧ updates (handleBack page_on_last_step) = updates page_on_last_step.
Proof.
  split; [reflexivity|].
  destruct (events_touch_their_own_state ClickBack page_on_last_step
              (handleBack page_on_last_step) eq_refl)
    as (Ha & _ & _ & Hw & _).
  split; [exact (Ha eq_refl)|].
  apply Hw; discriminate.
Defined.

(** X18: on a text question, typing records the typed string as the
    answer of this question, leaves the answers of the other questions,
    and makes [canProceed] hold exactly when the string has a character
    that is no white space; the Yes and No buttons are not there.  On a
    yes/no question, Yes and No record [true] and [false], make
    [canProceed] hold, and leave the other answers; typing and Enter are
    not there. *)
Theorem answering_records_the_answer p q back next
    (Hv : render p = QuestionCard q back next) :
  match Question.type q with
  | text =>
      (∀ s, ∃ p', dispatch (Type_ s) p = Some p'
          ∧ currentAnswer p' q = Some (AnswerString s)
          ∧ (∀ q', Question.id q' ≠ Question.id q →
                   currentAnswer p' q' = currentAnswer p q')
          ∧ (canProceed p' q = true
             ↔ ∃ c, c ∈ String.list_ascii_of_string s ∧ is_space c = false))
      ∧ dispatch ClickYes p = None ∧ dispatch ClickNo p = None
  | boolean =>
      (∃ p', dispatch ClickYes p = Some p'
         ∧ currentAnswer p' q = Some (AnswerBoolean true)
         ∧ canProceed p' q = true
         ∧ ∀ q', Question.id q' ≠ Question.id q →
                 currentAnswer p' q' = currentAnswer p q')
      ∧ (∃ p', dispatch ClickNo p = Some p'
         ∧ currentAnswer p' q = Some (AnswerBoolean false)
         ∧ canProceed p' q = true
         ∧ ∀ q', Question.id q' ≠ Question.id q →
                 currentAnswer p' q' = currentAnswer p q')
      ∧ (∀ s, dispatch (Type_ s) p = None) ∧ dispatch PressEnter p = None
  end.
Proof.
  unfold dispatch. rewrite Hv. destruct (Question.type q) eqn:Hty.
  - split_and!; try done. intros s. eexists. split; [reflexivity|].
    unfold canProceed, currentAnswer, setAnswer, set_answers. cbn [answers].
    rewrite Hty, lookup_insert_eq. split_and!; try done.
    + intros q' Hne. by rewrite lookup_insert_ne.
    + rewrite length_pos_nonempty, trim_empty. apply some_non_space.
  - split_and!; try done; eexists; (split; [reflexivity|]);
      unfold canProceed, currentAnswer, setAnswer, set_answers; cbn [answers];
      rewrite Hty, lookup_insert_eq; split_and!; try done;
      intros q' Hne; by rewrite lookup_insert_ne.
Qed.

Lemma answering_records_the_answer_witness :
  ∃ q back next p',
    render (mount new_user) = QuestionCard q back next
    ∧ Question.type q = text
    ∧ dispatch (Type_ "Boston, MA") (mount new_user) = Some p'
    ∧ currentAnswer p' q = Some (AnswerString "Boston, MA").
Proof.
  pose (q := default climate_question (QUESTIONS !! 0%nat)).
  pose proof (answering_records_the_answer (mount new_user) q true true
                eq_refl) as H.
  change (Question.type q) with text in H.
  destruct H as (H & _). destruct (H "Boston, MA") as (p' & Hd & Ha & _).
  exists q, true, true, p'. by split_and!.
Defined.

(** X19: when a question is shown, nothing is being submitted and the
    answer is valid, Next (and Enter on a text question) runs
    [handleNext]: before the last question the step goes up by one and
    no write is issued; on the last question the wizard starts
    submitting. *)
Theorem valid_answer_lets_the_user_advance p q back next
    (Hv : render p = QuestionCard q back next)
    (Hs : isSubmitting p = false) (Hc : canProceed p q = true) :
  dispatch ClickNext p = Some (handleNext p)
  ∧ (Question.type q = text → dispatch PressEnter p = Some (handleNext p))
  ∧ (isLastStep p = false →
     currentStep (handleNext p) = currentStep p + 1
     ∧ updates (handleNext p) = updates p)
  ∧ (isLastStep p = true →
     isSubmitting (handleNext p) = true
     ∧ in_flight (handleNext p) = S (in_flight p)).
Proof.
  destruct (render_card _ _ _ _ Hv) as (Hq & -> & ->).
  unfold dispatch. rewrite Hv, Hc, Hs. cbn. split_and!.
  - by destruct (Question.type q).
  - by intros ->.
  - intros Hl. unfold handleNext. by rewrite Hl.
  - intros Hl. unfold handleNext, call_update, in_flight. rewrite Hl.
    destruct (user _); cbn; split; try done; lia.
Qed.

Lemma valid_answer_lets_the_user_advance_witness :
  render page_answered_no = QuestionCard climate_question false false
  ∧ dispatch ClickNext page_answered_no = Some (handleNext page_answered_no)
  ∧ currentStep (handleNext page_answered_no) = 2.
Proof.
  split; [reflexivity|].
  destruct (valid_answer_lets_the_user_advance page_answered_no
              climate_question false false eq_refl eq_refl eq_refl)
    as (Hd & _ & Hn & _).
  split; [exact Hd|]. by destruct (Hn eq_refl) as [-> _].
Defined.

(** X20: while the step is the index of a question, going forward from a
    step that is not the last and then back gives the same page, and so
    does going back from a step greater than zero and then forward. *)
Theorem back_and_next_are_inverse p (Hin : in_range (currentStep p)) :
  (isLastStep p = false → handleBack (handleNext p) = p)
  ∧ (0 < currentStep p → handleNext (handleBack p) = p).
Proof.
  unfold in_range in Hin.
  change (Z.of_nat (length QUESTIONS)) with 5 in Hin. split.
  - intros Hl. unfold handleNext. rewrite Hl. unfold handleBack. cbn.
    destruct (Z.ltb_spec 0 (currentStep p + 1)); [|lia].
    destruct p; unfold set_step; cbn in *. f_equal. lia.
  - intros Hpos. unfold handleBack.
    destruct (Z.ltb_spec 0 (currentStep p)); [|lia].
    unfold handleNext, isLastStep.
    change (Z.of_nat (length QUESTIONS)) with 5. cbn [currentStep set_step].
    destruct (Z.eqb_spec (currentStep p - 1) (5 - 1)); [lia|].
    destruct p; unfold set_step; cbn in *. f_equal. lia.
Qed.

Lemma back_and_next_are_inverse_witness :
  in_range (currentStep page_on_last_step)
  ∧ handleNext (handleBack page_on_last_step) = page_on_last_step
  ∧ handleBack (handleNext page_answered_no) = page_answered_no.
Proof.
  assert (in_range (currentStep page_on_last_step)) as H1
    by (split; [discriminate|reflexivity]).
  assert (in_range (currentStep page_answered_no)) as H2
    by (split; [discriminate|reflexivity]).
  split; [exact H1|]. split.
  - exact (proj2 (back_and_next_are_inverse page_on_last_step H1) eq_refl).
  - exact (proj1 (back_and_next_are_inverse page_answered_no H2) eq_refl).
Defined.

(** X21: an event adds a write only if it is a click on Next, on the last
    question, with a valid answer, while nothing is being submitted and a
    user object is there; the write is then the completion metadata of
    the answers of that moment, and every other event leaves the writes
    as they are. *)
Theorem writes_only_from_the_last_question ev p p'
    (Hd : dispatch ev p = Some p') :
  updates p' = updates p
  ∨ (ev = ClickNext ∧ isLastStep p = true ∧ isSubmitting p = false
     ∧ (∃ q, question_at (currentStep p) = Some q ∧ canProceed p q = true)
     ∧ ∃ u, user (clerk p) = Some u
          ∧ updates p' = updates p ++ [completion_metadata u (answers p)]).
Proof.
  unfold dispatch in Hd. destruct ev; cbn in Hd.
  1-6: destruct (render p) as [|q back next|] eqn:Hrender; try done;
       destruct (render_card _ _ _ _ Hrender) as (Hq & -> & ->);
       destruct (Question.type q) eqn:Hqt; try done.
  all: repeat case_match; simplify_eq; try (by left).
  all: try (unfold handleBack; destruct (0 <? _); by left).
  all: try (unfold redirect_effect; destruct (_ && _); by left).
  all: try (unfold handleNext_resume; repeat case_match; by left).
  - left. unfold handleNext, isLastStep.
    by rewrite (text_question_is_first _ _ Hq Hqt).
  - match goal with
    | H : negb (canProceed _ _) || _ = false |- _ =>
        apply orb_false_elim in H as [Hc%negb_false_iff Hs]
    end.
    left. unfold handleNext, isLastStep.
    by rewrite (text_question_is_first _ _ Hq Hqt).
  - match goal with
    | H : negb (canProceed _ _) || _ = false |- _ =>
        apply orb_false_elim in H as [Hc%negb_false_iff Hs]
    end.
    unfold handleNext, call_update.
    destruct (isLastStep p) eqn:Hl; [|by left]. cbn.
    destruct (user (clerk p)) as [u|] eqn:Hu; cbn; [|by left].
    right. split_and!; eauto.
Qed.

Lemma writes_only_from_the_last_question_witness :
  dispatch ClickNext page_on_last_step = Some page_submitting
  ∧ updates page_on_last_step = []
  ∧ length (updates page_submitting) = 1%nat.
Proof.
  split; [reflexivity|]. split; [reflexivity|].
  destruct (writes_only_from_the_last_question ClickNext page_on_last_step
              page_submitting eq_refl)
    as [H|(_ & _ & _ & _ & u & _ & H)]; [discriminate H|].
  by rewrite H.
Defined.

(** X22: on every page the wizard can be in, each write issued so far
    holds a true completion flag and, for every one of the questions, an
    answer within the constraint of its type (the answers are never
    written in part); and every question before the current one is
    answered within its constraint. *)
Theorem writes_are_complete p (Hr : reachable p) :
  (∀ m, m ∈ updates p → complete_write m)
  ∧ (∀ i q, 0 ≤ i < currentStep p → question_at i = Some q →
            satisfies_constraint q (answers p !! Question.id q)).
Proof.
  destruct (writes_are_complete_invariant p Hr) as [He Hw]. split.
  - intros m Hm. by eapply Forall_forall in Hw.
  - exact He.
Qed.

Lemma writes_are_complete_witness :
  reachable page_submitting
  ∧ ∃ m, updates page_submitting = [m] ∧ complete_write m.
Proof.
  split; [exact page_submitting_reachable|].
  exists (completion_metadata {| unsafeMetadata := {[ "theme" := JStr "dark" ]} |}
            (answers page_on_last_step)).
  split; [reflexivity|].
  apply (writes_are_complete page_submitting page_submitting_reachable).
  vm_compute. left.
Defined.

Lemma at_most_one_write_in_flight_witness :
  reachable page_submitting
  ∧ in_flight page_submitting = 1%nat
  ∧ isSubmitting page_submitting = true.
Proof.
  split; [exact page_submitting_reachable|]. split; [reflexivity|].
  apply (at_most_one_write_in_flight page_submitting
           page_submitting_reachable).
  vm_compute. lia.
Defined.

(** X24: on every page the wizard can be in, the only route it has pushed
    is [/dashboard]. *)
Theorem wizard_routes_to_dashboard_only p (Hr : reachable p) :
  ∀ route, route ∈ pushed p → route = "/dashboard".
Proof.
  induction Hr as [c|ev p p' Hp IH Hd].
  - unfold mount, redirect_effect. destruct (_ && _); cbn; intros route Hin.
    + by apply list_elem_of_singleton in Hin.
    + by apply elem_of_nil in Hin.
  - unfold dispatch in Hd. destruct ev; cbn in Hd;
      try (destruct (render p) as [|q back next|]; [done| |done];
           destruct (Question.type q));
      repeat case_match; simplify_eq;
      unfold handleNext, handleBack, call_update, redirect_effect,
        handleNext_resume in *;
      repeat case_match; cbn; try done;
      intros route [?| ->%list_elem_of_singleton]%elem_of_app; auto.
Qed.

Lemma wizard_routes_to_dashboard_only_witness :
  reachable page_submitted
  ∧ length (pushed page_submitted) = 1%nat
  ∧ ∀ route, route ∈ pushed page_submitted → route = "/dashboard".
Proof.
  split; [exact page_submitted_reachable|]. split; [reflexivity|].
  exact (wizard_routes_to_dashboard_only page_submitted
           page_submitted_reachable).
Defined.

(** X25: when [handleNext] runs on the last step and the user object is
    missing, the optional call issues no write; the handler waits on
    nothing, cannot be failed by a write, and on resuming pushes the
    route [/dashboard] although nothing was saved. *)
Theorem last_step_without_a_user p e
    (Hlast : isLastStep p = true) (Hu : user (clerk p) = None) :
  updates (handleNext p) = updates p
  ∧ isSubmitting (handleNext p) = true
  ∧ awaiting_nothing (handleNext p) = S (awaiting_nothing p)
  ∧ awaiting_update (handleNext p) = awaiting_update p
  ∧ dispatch NothingSettled (handleNext p)
    = Some (router_push "/dashboard" (resumed_nothing (handleNext p)))
  ∧ (awaiting_update p = 0%nat →
     dispatch (UpdateSettled (Some e)) (handleNext p) = None).
Proof.
  unfold handleNext, call_update. rewrite Hlast. cbn. rewrite Hu. cbn.
  split_and!; try done. by intros ->.
Qed.

Lemma last_step_without_a_user_witness :
  isLastStep page_without_user = true
  ∧ user (clerk page_without_user) = None
  ∧ updates (handleNext page_without_user) = []
  ∧ dispatch NothingSettled (handleNext page_without_user)
    = Some (router_push "/dashboard"
              (resumed_nothing (handleNext page_without_user))).
Proof.
  split; [reflexivity|]. split; [reflexivity|].
  destruct (last_step_without_a_user page_without_user save_failed
              eq_refl eq_refl) as (Hw & _ & _ & _ & Hd & _).
  split; [exact Hw|exact Hd].
Defined.
